(** * PolyLoc (polyloc.py): bin partition, bin sizes and localization

    A shallow embedding of [polyloc.py]: argument validation ([check_args]),
    the completion of the bin partition over the genotype universe
    ([polyloc_partitions]) and the localization table ([compute_polyloc]).

    Python exceptions are values of [exn] carried by [result]; the files a
    stage writes are threaded explicitly as a [files] store; pandas tables
    are lists of labelled rows. *)

From Stdlib Require Import ZArith List String Ascii Bool Arith Lia QArith.
From Stdlib Require Import DecimalString DecimalNat DecimalZ FinFun.
From Stdlib Require PrimFloat Uint63 SpecFloat FloatOps FloatAxioms.
Import ListNotations.

Local Open Scope string_scope.
Local Open Scope list_scope.

(** ** Exceptions *)

(** The exceptions [polyloc.py] raises itself are all [ValueError]s, told
    apart by their message; [KeyError] is what pandas raises on a missing
    label or column, [TypeError] on an operand of the wrong type and
    [IOError] on a file that does not exist. *)
Inductive exn : Type :=
| ValueError (msg : string)
| KeyError (label : string)
| TypeError (msg : string)
| IOError (path : string).

Inductive result (A : Type) : Type :=
| Ok (a : A)
| Raise (e : exn).

Arguments Ok {A} a.
Arguments Raise {A} e.

Definition bind {A B : Type} (r : result A) (k : A -> result B) : result B :=
  match r with
  | Ok a => k a
  | Raise e => Raise e
  end.

Declare Scope py_scope.
Delimit Scope py_scope with py.
Notation "x <- c ;; k" := (bind c (fun x => k))
  (at level 61, c at next level, right associativity) : py_scope.
Notation "'check' c 'orelse' e ;; k" := (if c then Raise e else k)
  (at level 61, c at next level, e at next level, right associativity) : py_scope.

Definition is_ok {A : Type} (r : result A) : bool :=
  match r with Ok _ => true | Raise _ => false end.

(** ** Command-line arguments *)

Module Args.
(** The [argparse] namespace: [store_true] flags are [bool], a
    parameter with [default=None] is an [option]. *)
Record t : Type := mk {
  compute_partitions : bool;
  compute_ldscores : bool;
  compute_polyloc : bool;
  num_bins : option Z;
  skip_Ckmedian : bool;
  chr : option Z;
  ld_wind_cm : option Q;
  ld_wind_kb : option Z;
  ld_wind_snps : option Z;
  keep : option string;
  sumstats : option string;
  posterior : option string;
  w_ld_chr : option string;
  bfile_chr : option string;
  output_prefix : string
}.

Definition set_ld_wind_cm (a : t) (v : option Q) : t :=
  mk (compute_partitions a) (compute_ldscores a) (compute_polyloc a)
     (num_bins a) (skip_Ckmedian a) (chr a) v (ld_wind_kb a)
     (ld_wind_snps a) (keep a) (sumstats a) (posterior a) (w_ld_chr a)
     (bfile_chr a) (output_prefix a).
End Args.

Definition is_None {A : Type} (o : option A) : bool :=
  match o with None => true | Some _ => false end.

Definition is_not_None {A : Type} (o : option A) : bool := negb (is_None o).

(** [np.sum] of an array of booleans. *)
Definition np_sum_bool (l : list bool) : nat := count_occ bool_dec l true.

(** ** check_args (lines 20-75) *)

Definition msg_no_mode : string :=
  "must specify at least one of --compute-partitions, --compute-ldscores, --compute-polyloc".
Definition msg_partitions_polyloc : string :=
  "cannot use both --compute-partitions and --compute_polyloc without also specifying --compute-ldscores".
Definition msg_chr_only_ldscores : string :=
  "--chr can only be specified when using only --compute-ldscores".
Definition msg_bfile_chr_stage : string :=
  "--bfile-chr can only be specified when using --compute-partitions or --compute-ldscores".
Definition msg_ldscores_polyloc : string :=
  "cannot use both --compute-ldscores and --compute_polyloc without also specifying --compute-partitions".
Definition msg_posterior_stage : string :=
  "--posterior can only be specified together with --compute-partitions".
Definition msg_sumstats_stage : string :=
  "--sumstats can only be specified together with --compute-polyloc".
Definition msg_num_bins : string :=
  "You must specify --num-bins when using --skip-Ckmedian".
Definition msg_bfile_chr_partitions : string :=
  "You must specify --bfile-chr when you specify --compute-partitions".
Definition msg_posterior_required : string :=
  "--posterior must be specified when using --compute-partitions".
Definition msg_bfile_chr_ldscores : string :=
  "You must specify --bfile-chr when you specify --compute-ldscores".
Definition msg_ld_wind_stage : string :=
  "--ld-wind parameters can only be specified together with --compute-ldscores".
Definition msg_keep_stage : string :=
  "--keep can only be specified together with --compute-ldscores".
Definition msg_chr_stage : string :=
  "--chr can only be specified together with --compute-ldscores".
Definition msg_sumstats_required : string :=
  "--sumstats must be specified when using --compute-polyloc".
Definition msg_w_ld_chr_required : string :=
  "--w-ld-chr must be specified when using --compute-polyloc".
Definition warn_ld_wind_default : string :=
  "no ld-wind argument specified.  PolyLoc will use --ld-cm 1.0".

Definition num_bins_invalid (n : option Z) : bool :=
  match n with
  | None => true
  | Some k => (k <=? 0)%Z
  end.

Definition no_ld_wind (a : Args.t) : bool :=
  is_None (Args.ld_wind_cm a) && is_None (Args.ld_wind_kb a)
  && is_None (Args.ld_wind_snps a).

(** The LD-score block (lines 54-59): the one place where [check_args]
    changes its argument, and logs a warning. *)
Definition ldscores_defaults (a : Args.t) : result (Args.t * list string) :=
  if Args.compute_ldscores a then
    (check is_None (Args.bfile_chr a) orelse ValueError msg_bfile_chr_ldscores ;;
     if no_ld_wind a
     then Ok (Args.set_ld_wind_cm a (Some 1%Q), [warn_ld_wind_default])
     else Ok (a, []))%py
  else Ok (a, []).

(** [check_args args]: the validated arguments together with the warnings
    logged, or the first [ValueError] met, in the order of the source. *)
Definition check_args (args : Args.t) : result (Args.t * list string) :=
  (let mode_params :=
     [Args.compute_partitions args; Args.compute_ldscores args;
      Args.compute_polyloc args] in
   check (np_sum_bool mode_params =? 0)%nat orelse ValueError msg_no_mode ;;
   check (Args.compute_partitions args && Args.compute_polyloc args
          && negb (Args.compute_ldscores args))
     orelse ValueError msg_partitions_polyloc ;;
   check (is_not_None (Args.chr args)
          && (Args.compute_partitions args || Args.compute_polyloc args))
     orelse ValueError msg_chr_only_ldscores ;;
   check (is_not_None (Args.bfile_chr args)
          && (negb (Args.compute_ldscores args)
              && negb (Args.compute_partitions args)))
     orelse ValueError msg_bfile_chr_stage ;;
   check (Args.compute_ldscores args && Args.compute_polyloc args
          && negb (Args.compute_partitions args))
     orelse ValueError msg_ldscores_polyloc ;;
   check (is_not_None (Args.posterior args)
          && negb (Args.compute_partitions args))
     orelse ValueError msg_posterior_stage ;;
   check (is_not_None (Args.sumstats args)
          && negb (Args.compute_polyloc args))
     orelse ValueError msg_sumstats_stage ;;
   check (Args.skip_Ckmedian args && num_bins_invalid (Args.num_bins args))
     orelse ValueError msg_num_bins ;;
   check (Args.compute_partitions args && is_None (Args.bfile_chr args))
     orelse ValueError msg_bfile_chr_partitions ;;
   check (Args.compute_partitions args && is_None (Args.posterior args))
     orelse ValueError msg_posterior_required ;;
   r <- ldscores_defaults args ;;
   let '(args, warnings) := r in
   check (negb (Args.compute_ldscores args) && negb (no_ld_wind args))
     orelse ValueError msg_ld_wind_stage ;;
   check (negb (Args.compute_ldscores args) && is_not_None (Args.keep args))
     orelse ValueError msg_keep_stage ;;
   check (negb (Args.compute_ldscores args) && is_not_None (Args.chr args))
     orelse ValueError msg_chr_stage ;;
   check (Args.compute_polyloc args && is_None (Args.sumstats args))
     orelse ValueError msg_sumstats_required ;;
   check (Args.compute_polyloc args && is_None (Args.w_ld_chr args))
     orelse ValueError msg_w_ld_chr_required ;;
   Ok (args, warnings))%py.

(** The three stage flags of an argument set. *)
Definition stage_flags (a : Args.t) : bool * bool * bool :=
  (Args.compute_partitions a, Args.compute_ldscores a, Args.compute_polyloc a).

(** The messages of the three stage-combination rules (lines 24-27, 34-35). *)
Definition stage_combination_msgs : list string :=
  [msg_no_mode; msg_partitions_polyloc; msg_ldscores_polyloc].

(** The flag combinations the stage-combination rules forbid. *)
Definition forbidden_combination (f : bool * bool * bool) : bool :=
  let '(p, l, c) := f in
  (negb p && negb l && negb c) || (p && c && negb l) || (l && c && negb p).

(** Arguments that run the stages [(p, l, c)] with every parameter those
    stages require and none they refuse. *)
Definition minimal_args (p l c : bool) : Args.t :=
  Args.mk p l c None false None None None None None
    (if c then Some "sumstats.parquet" else None)
    (if p then Some "posterior.parquet" else None)
    (if c then Some "weights." else None)
    (if p || l then Some "plink." else None)
    "out".

(** ** Tables (pandas.DataFrame) *)

Section Tables.

(** The type of floating-point values; tables only carry them. *)
Context {F : Type}.

(** A cell of a table. [CNaN] is the missing value pandas fills in when
    frames with different columns are concatenated. *)
Inductive cell : Type :=
| CInt (z : Z)
| CFloat (x : F)
| CStr (s : string)
| CBool (b : bool)
| CNaN.

(** A row: its index label and its cells, one per column. *)
Definition row : Type := (string * list cell)%type.

Record DataFrame : Type := mkDF {
  columns : list string;
  rows : list row
}.

Definition index (df : DataFrame) : list string := map fst (rows df).

(** [df.shape[0]] and [df.shape[1]]. *)
Definition shape0 (df : DataFrame) : nat := List.length (rows df).
Definition shape1 (df : DataFrame) : nat := List.length (columns df).

Definition mem (x : string) (l : list string) : bool :=
  existsb (String.eqb x) l.

(** [xs.isin(ys)]: one boolean per element of [xs]. *)
Definition isin (xs ys : list string) : list bool :=
  map (fun x => mem x ys) xs.

(** [~mask] and [np.any(mask)]. *)
Definition invert (mask : list bool) : list bool := map negb mask.
Definition np_any (mask : list bool) : bool := existsb (fun b => b) mask.

(** [xs[mask]]: boolean-mask selection. *)
Fixpoint mask_select {A : Type} (xs : list A) (mask : list bool) : list A :=
  match xs, mask with
  | x :: xs', b :: mask' =>
      if b then x :: mask_select xs' mask' else mask_select xs' mask'
  | _, _ => []
  end.

(** Position of a column name. *)
Fixpoint col_index (c : string) (cols : list string) : option nat :=
  match cols with
  | [] => None
  | c' :: cols' =>
      if String.eqb c c' then Some O
      else option_map S (col_index c cols')
  end.

Fixpoint col_indices (cs cols : list string) : result (list nat) :=
  match cs with
  | [] => Ok []
  | c :: cs' =>
      match col_index c cols with
      | None => Raise (KeyError c)
      | Some i => (rest <- col_indices cs' cols ;; Ok (i :: rest))%py
      end
  end.

Definition project (positions : list nat) (cells : list cell) : list cell :=
  map (fun i => nth i cells CNaN) positions.

(** The rows carrying one label, in table order; a label the index does
    not have is a [KeyError]. *)
Definition rows_labelled (label : string) (rs : list row) : result (list row) :=
  match filter (fun r => String.eqb (fst r) label) rs with
  | [] => Raise (KeyError label)
  | found => Ok found
  end.

Fixpoint loc_rows (labels : list string) (rs : list row) : result (list row) :=
  match labels with
  | [] => Ok []
  | l :: labels' =>
      (found <- rows_labelled l rs ;;
       rest <- loc_rows labels' rs ;;
       Ok (found ++ rest))%py
  end.

(** The rows found for a list of labels that are all in the index. *)
Definition located (labels : list string) (rs : list row) : list row :=
  flat_map (fun k => filter (fun r => String.eqb (fst r) k) rs) labels.

(** [df.loc[labels, cols]]: for every requested label, in order, every
    row that carries it (a label repeated in the index yields each of
    its rows once per request), restricted to the columns [cols]. *)
Definition loc (df : DataFrame) (labels cols : list string) : result DataFrame :=
  (positions <- col_indices cols (columns df) ;;
   found <- loc_rows labels (rows df) ;;
   Ok (mkDF cols (map (fun r => (fst r, project positions (snd r))) found)))%py.

Fixpoint replace_nth (i : nat) (v : cell) (cells : list cell) : list cell :=
  match cells, i with
  | [], _ => []
  | _ :: cells', O => v :: cells'
  | c :: cells', S i' => c :: replace_nth i' v cells'
  end.

(** [df[c] = v] for a scalar [v]: an existing column is overwritten in
    every row, a new column is appended last. *)
Definition setitem (df : DataFrame) (c : string) (v : cell) : DataFrame :=
  match col_index c (columns df) with
  | Some i =>
      mkDF (columns df)
           (map (fun r => (fst r, replace_nth i v (snd r))) (rows df))
  | None =>
      mkDF (columns df ++ [c])
           (map (fun r => (fst r, snd r ++ [v])) (rows df))
  end.

(** The rows of [df] laid out on the columns [cols]; a column [df] does
    not have is filled with [CNaN]. *)
Definition reindex_columns (cols : list string) (df : DataFrame) : list row :=
  map (fun r =>
         (fst r,
          map (fun c => match col_index c (columns df) with
                        | Some i => nth i (snd r) CNaN
                        | None => CNaN
                        end) cols))
      (rows df).

(** [pd.concat([a, b], axis=0)]: the columns of [a] followed by those
    only [b] has; the rows of [a] followed by the rows of [b]. *)
Definition pd_concat (a b : DataFrame) : DataFrame :=
  let cols :=
    columns a ++ filter (fun c => negb (mem c (columns a))) (columns b) in
  mkDF cols (reindex_columns cols a ++ reindex_columns cols b).

(** [df.drop(columns=cs)]: a name that is not a column is a [KeyError]. *)
Definition drop (df : DataFrame) (cs : list string) : result DataFrame :=
  (_ <- col_indices cs (columns df) ;;
   let keep := map (fun c => negb (mem c cs)) (columns df) in
   Ok (mkDF (mask_select (columns df) keep)
            (map (fun r => (fst r, mask_select (snd r) keep)) (rows df))))%py.

(** What a cell adds to the sum of its column: booleans count as 0 and
    1, missing values are skipped. Text and floating-point cells do not
    occur in the columns summed here and are rejected. *)
Definition cell_count (c : cell) : result Z :=
  match c with
  | CBool b => Ok (Z.b2z b)
  | CInt z => Ok z
  | CNaN => Ok 0%Z
  | CStr _ | CFloat _ => Raise (TypeError "column is not boolean or integer")
  end.

Fixpoint sum_cells (cs : list cell) : result Z :=
  match cs with
  | [] => Ok 0%Z
  | c :: cs' =>
      (x <- cell_count c ;; s <- sum_cells cs' ;; Ok (x + s)%Z)%py
  end.

Fixpoint map_result {A B : Type} (f : A -> result B) (l : list A)
  : result (list B) :=
  match l with
  | [] => Ok []
  | a :: l' => (b <- f a ;; bs <- map_result f l' ;; Ok (b :: bs))%py
  end.

(** [df.sum(axis=0).values]: one sum per column. *)
Definition sum_axis0 (df : DataFrame) : result (list Z) :=
  map_result
    (fun j => sum_cells (map (fun r => nth j (snd r) CNaN) (rows df)))
    (seq 0 (shape1 df)).

(** ** Files *)

(** A delimited text file as [to_csv] writes it: separator, float
    format, header line and records. *)
Record csv : Type := mkCsv {
  sep : string;
  float_format : option string;
  header : list string;
  records : list (list cell)
}.

(** The files written so far, most recent first. *)
Definition files : Type := list (string * csv).

Fixpoint read_file (path : string) (fs : files) : option csv :=
  match fs with
  | [] => None
  | (p, f) :: fs' => if String.eqb p path then Some f else read_file path fs'
  end.

Definition write_file (path : string) (f : csv) (fs : files) : files :=
  (path, f) :: fs.

(** A computation that may write files and may raise: the files
    written before an exception stay written. *)
Definition io (A : Type) : Type := files -> result A * files.

Definition io_ret {A : Type} (a : A) : io A := fun fs => (Ok a, fs).

Definition io_raise {A : Type} (e : exn) : io A := fun fs => (Raise e, fs).

Definition io_bind {A B : Type} (m : io A) (k : A -> io B) : io B :=
  fun fs =>
    match m fs with
    | (Ok a, fs') => k a fs'
    | (Raise e, fs') => (Raise e, fs')
    end.

Definition io_lift {A : Type} (r : result A) : io A := fun fs => (r, fs).

Definition io_write (path : string) (f : csv) : io unit :=
  fun fs => (Ok tt, write_file path f fs).

End Tables.

Arguments cell F : clear implicits.
Arguments row F : clear implicits.
Arguments DataFrame F : clear implicits.
Arguments csv F : clear implicits.
Arguments files F : clear implicits.
Arguments io F A : clear implicits.

Declare Scope io_scope.
Delimit Scope io_scope with io.
Notation "x <- c ;; k" := (io_bind c (fun x => k))
  (at level 61, c at next level, right associativity) : io_scope.
Notation "c ;;; k" := (io_bind c (fun _ => k))
  (at level 61, right associativity) : io_scope.

(** ** polyloc_partitions (lines 133-169) *)

(** ['%d' % n]. *)
Definition fmt_d (n : Z) : string := NilZero.string_of_int (Z.to_int n).

(** [np.arange(a, b)]. *)
Definition arange (a b : Z) : list Z :=
  map (fun i => (a + Z.of_nat i)%Z) (seq 0 (Z.to_nat (b - a))).

(** Modelled from the spec: [SNP_COLUMNS] is imported from [polyfun.py],
    which is not among the sources; these are the identity columns the
    code selects from the [.bim] table (line 154) and drops before
    counting (line 168). *)
Definition SNP_COLUMNS : list string := ["CHR"; "SNP"; "BP"; "A1"; "A2"].

(** The column names given to [read_table] at line 141. *)
Definition BIM_COLUMNS : list string := ["CHR"; "SNP"; "CM"; "BP"; "A1"; "A2"].

Definition bin_colname (i : Z) : string := "snpvar_bin" ++ fmt_d i.

(** The names of the bin columns 1 to [K]. *)
Definition bin_names (K : nat) : list string :=
  map bin_colname (arange 1 (Z.of_nat K + 1)).

Definition msg_not_in_plink : string :=
  "Found variants in posterior file that are not found in the plink files".

Definition msg_length_mismatch : string :=
  "Length of values does not match length of index".

Definition tab : string := String (ascii_of_nat 9) EmptyString.

(** A column that is not an identity column. *)
Definition not_snp (c : string) : bool := negb (mem c SNP_COLUMNS).

Section Partition.

Context {F : Type}.

(** One line of a [.bim] file. *)
Record bim_line : Type := mkBim {
  bim_CHR : Z;
  bim_SNP : string;
  bim_CM : F;
  bim_BP : Z;
  bim_A1 : string;
  bim_A2 : string
}.

(** [df['SNP'] + df['A1'] + df['A2']] on one row. *)
Definition variant_key (snp a1 a2 : string) : string := (snp ++ a1) ++ a2.

Definition bim_key (l : bim_line) : string :=
  variant_key (bim_SNP l) (bim_A1 l) (bim_A2 l).

(** [df_bim] after line 144: the lines of the [.bim] files, indexed by
    their variant key. *)
Definition bim_frame (ls : list bim_line) : DataFrame F :=
  mkDF BIM_COLUMNS
    (map (fun l =>
            (bim_key l,
             [CInt (bim_CHR l); CStr (bim_SNP l); CFloat (bim_CM l);
              CInt (bim_BP l); CStr (bim_A1 l); CStr (bim_A2 l)]))
         ls).

(** A variant of the posterior file with the bin memberships the
    partitioner gave it, one boolean per bin. *)
Record snp_row : Type := mkSnp {
  snp_CHR : Z;
  snp_SNP : string;
  snp_BP : Z;
  snp_A1 : string;
  snp_A2 : string;
  snp_bins : list bool
}.

Definition snp_key (r : snp_row) : string :=
  variant_key (snp_SNP r) (snp_A1 r) (snp_A2 r).

(** Modelled from the spec: [partition_snps_to_bins] belongs to
    [polyfun.py], which is not among the sources. This is the frame it
    leaves in [self.df_bins], after line 145 has indexed it by variant
    key: the identity columns followed by one boolean column per bin,
    named [snpvar_bin1] to [snpvar_binK]. *)
Definition bins_frame (K : nat) (P : list snp_row) : DataFrame F :=
  mkDF (SNP_COLUMNS ++ bin_names K)
    (map (fun r =>
            (snp_key r,
             [CInt (snp_CHR r); CStr (snp_SNP r); CInt (snp_BP r);
              CStr (snp_A1 r); CStr (snp_A2 r)]
             ++ map CBool (snp_bins r)))
         P).

(** Lines 152-160: the bin of the variants the posterior file lacks. *)
Definition add_residual_bin (df_bim df_bins : DataFrame F)
  : result (DataFrame F) :=
  if (shape0 df_bins <? shape0 df_bim)%nat then
    (let new_snps :=
       mask_select (index df_bim)
                   (invert (isin (index df_bim) (index df_bins))) in
     df_bins_new <- loc df_bim new_snps SNP_COLUMNS ;;
     let df_bins_new :=
       fold_left (fun d colname => setitem d colname (CBool false))
                 (columns df_bins) df_bins_new in
     let new_colname :=
       bin_colname (Z.of_nat (shape1 df_bins_new)
                    - Z.of_nat (List.length SNP_COLUMNS) + 1) in
     let df_bins := setitem df_bins new_colname (CBool false) in
     let df_bins_new := setitem df_bins_new new_colname (CBool true) in
     Ok (pd_concat df_bins df_bins_new))%py
  else Ok df_bins.

(** Lines 166-168: [df_binsize], as pairs (BIN, BIN_SIZE). *)
Definition bin_sizes (df_bins : DataFrame F) : result (list (Z * Z)) :=
  (let bins :=
     arange 1 (Z.of_nat (shape1 df_bins)
               - Z.of_nat (List.length SNP_COLUMNS) + 1) in
   dropped <- drop df_bins SNP_COLUMNS ;;
   sizes <- sum_axis0 dropped ;;
   check negb (List.length sizes =? List.length bins)%nat
     orelse ValueError msg_length_mismatch ;;
   Ok (combine bins sizes))%py.

(** Line 169: [df_binsize.to_csv(..., sep='\t', index=True)]. *)
Definition binsize_csv (df_binsize : list (Z * Z)) : csv F :=
  mkCsv tab None ["BIN"; "BIN_SIZE"]
        (map (fun p => [CInt (fst p); CInt (snd p)]) df_binsize).

(** Lines 165-169: the bin sizes, saved to disk. *)
Definition save_bin_sizes (df_bins : DataFrame F) (output_prefix : string)
  : io F unit :=
  (df_binsize <- io_lift (bin_sizes df_bins) ;;
   io_write (output_prefix ++ ".binsize") (binsize_csv df_binsize))%io.

(** [save_bins_to_disk] belongs to [polyfun.py]; it is taken as a
    parameter: whatever it writes, given the frame. *)
Variable save_bins_to_disk : DataFrame F -> files F -> files F.

(** [polyloc_partitions]: [bim chr_num] stands for the contents of the
    [.bim] file of chromosome [chr_num], [K] and [P] for the labelled
    posterior variants the first two calls (lines 135-136) leave in
    [self.df_bins]. The value returned is the final [self.df_bins]. *)
Definition polyloc_partitions (bim : Z -> list bim_line) (K : nat)
    (P : list snp_row) (output_prefix : string) : io F (DataFrame F) :=
  (let df_bim := bim_frame (flat_map bim (arange 1 23)) in
   let df_bins := bins_frame K P in
   if np_any (invert (isin (index df_bins) (index df_bim)))
   then io_raise (ValueError msg_not_in_plink)
   else
     df_bins <- io_lift (add_residual_bin df_bim df_bins) ;;
     (fun fs => (Ok tt, save_bins_to_disk df_bins fs)) ;;;
     save_bin_sizes df_bins output_prefix ;;;
     io_ret df_bins)%io.

(** *** Vocabulary of the claims *)

(** keys(U): the variant keys of the genotype universe. *)
Definition universe (bim : Z -> list bim_line) : list bim_line :=
  flat_map bim (arange 1 23).

Definition universe_keys (bim : Z -> list bim_line) : list string :=
  map bim_key (universe bim).

Definition posterior_keys (P : list snp_row) : list string := map snp_key P.

(** The identity of a variant: its id and its two alleles. *)
Definition snp_identity (r : snp_row) : string * string * string :=
  (snp_SNP r, snp_A1 r, snp_A2 r).

Definition bim_identity (l : bim_line) : string * string * string :=
  (bim_SNP l, bim_A1 l, bim_A2 l).

Definition is_true_cell (c : cell F) : bool :=
  match c with CBool true => true | _ => false end.

Definition is_false_cell (c : cell F) : bool :=
  match c with CBool false => true | _ => false end.

(** The cells of a row that stand in bin columns. *)
Definition bin_values (df : DataFrame F) (r : row F) : list (cell F) :=
  mask_select (snd r) (map (fun c => negb (mem c SNP_COLUMNS)) (columns df)).

(** The names of the bin columns. *)
Definition bin_columns (df : DataFrame F) : list string :=
  filter (fun c => negb (mem c SNP_COLUMNS)) (columns df).

(** Exactly one bin cell of the row is [True], the others are [False]. *)
Definition one_hot (df : DataFrame F) (r : row F) : bool :=
  (List.length (filter is_true_cell (bin_values df r)) =? 1)%nat
  && forallb (fun c => is_true_cell c || is_false_cell c) (bin_values df r).

(** What the partitioner hands over: [K] memberships per variant, one
    of them true. *)
Definition labelled (K : nat) (P : list snp_row) : bool :=
  forallb (fun r => (List.length (snp_bins r) =? K)%nat
                    && (np_sum_bool (snp_bins r) =? 1)%nat) P.

(** A valid bin-assignment matrix: the identity columns first, then the
    bin columns; every row has a cell per column and is one-hot. *)
Definition valid_matrix (df : DataFrame F) : bool :=
  forallb (fun p => String.eqb (fst p) (snd p))
          (combine (firstn 5 (columns df)) SNP_COLUMNS)
  && (5 <=? shape1 df)%nat
  && forallb (fun c => negb (mem c SNP_COLUMNS)) (skipn 5 (columns df))
  && forallb (fun r => (List.length (snd r) =? shape1 df)%nat
                       && one_hot df r) (rows df).

(** The number of rows whose bin cell at position [i] (bin number
    [i + 1]) is [True]. *)
Definition bin_count (df : DataFrame F) (i : nat) : nat :=
  List.length
    (filter (fun r => is_true_cell (nth i (bin_values df r) CNaN)) (rows df)).

(** The lines of [U] whose key is none of the posterior keys. *)
Definition unlabelled (U : list bim_line) (P : list snp_row)
  : list bim_line :=
  filter (fun l => negb (mem (bim_key l) (posterior_keys P))) U.

(** The variants of the universe that the posterior file lacks. *)
Definition missing (bim : Z -> list bim_line) (P : list snp_row)
  : list bim_line :=
  unlabelled (universe bim) P.

(** The rows synthesized for the variants the posterior file lacks:
    [False] in every column the labelled frame has, [True] in the new
    one. *)
Definition residual_rows (K : nat) (U : list bim_line) (P : list snp_row)
  : list (row F) :=
  map (fun r => (fst r, repeat (CBool false) (5 + K) ++ [CBool true]))
      (located (map bim_key (unlabelled U P)) (rows (bim_frame U))).

(** The frame [add_residual_bin] leaves in [self.df_bins] for the
    universe lines [U] and the labelled variants [P]. *)
Definition completed (K : nat) (U : list bim_line) (P : list snp_row)
  : DataFrame F :=
  if (List.length P <? List.length U)%nat
  then mkDF (SNP_COLUMNS ++ bin_names (S K))
         (map (fun r => (fst r, snd r ++ [CBool false]))
              (rows (bins_frame K P))
          ++ residual_rows K U P)
  else bins_frame K P.

Definition truth (c : cell F) : nat := if is_true_cell c then 1 else 0.

(** The table of bin sizes: bin [i + 1] with the number of rows in it. *)
Definition size_table (df : DataFrame F) : list (Z * Z) :=
  map (fun i => (Z.of_nat (S i), Z.of_nat (bin_count df i)))
      (seq 0 (List.length (bin_columns df))).


End Partition.

Arguments bim_line F : clear implicits.
Arguments snp_row : clear implicits.

(** ** Floating-point arithmetic *)

(** The arithmetic [compute_polyloc] performs on [float64] values. The
    code is embedded once, over this interface, and read at two
    instances: [Float64], IEEE 754 binary64 as numpy computes, and
    [ExactQ], exact rational arithmetic without rounding. *)
Record numeric : Type := mkNumeric {
  num : Type;
  nadd : num -> num -> num;
  nmul : num -> num -> num;
  ndiv : num -> num -> num;
  nzero : num;
  nnan : num;
  nisnan : num -> bool;
  of_int : Z -> num
}.

Definition float_of_int (z : Z) : PrimFloat.float :=
  if (z <? 0)%Z
  then PrimFloat.opp (PrimFloat.of_uint63 (Uint63.of_Z (- z)))
  else PrimFloat.of_uint63 (Uint63.of_Z z).

(** IEEE 754 binary64: division by zero raises nothing, it yields an
    infinity or NaN. *)
Definition Float64 : numeric :=
  mkNumeric PrimFloat.float PrimFloat.add PrimFloat.mul PrimFloat.div
            PrimFloat.zero PrimFloat.nan PrimFloat.is_nan float_of_int.

Definition lift2 (f : Q -> Q -> Q) (a b : option Q) : option Q :=
  match a, b with
  | Some x, Some y => Some (f x y)
  | _, _ => None
  end.

Definition exact_div (a b : option Q) : option Q :=
  match a, b with
  | Some x, Some y => if Qeq_bool y 0 then None else Some (x / y)%Q
  | _, _ => None
  end.

(** Exact arithmetic: [Some q] is the finite value [q], computed without
    rounding; [None] stands for every value that is not finite. *)
Definition ExactQ : numeric :=
  mkNumeric (option Q) (lift2 Qplus) (lift2 Qmult) exact_div
            (Some 0%Q) None is_None (fun z => Some (inject_Z z)).

(** ** compute_polyloc (lines 173-193) *)

Definition msg_broadcast : string :=
  "operands could not be broadcast together".

Definition msg_not_numeric : string :=
  "can't multiply sequence by non-int of type 'float'".

Definition H2 : string := "%H2".
Definition SUM_H2 : string := "SUM_%H2".

Section Localization.

Variable N : numeric.

Local Abbreviation F := (num N).

(** What [run_ldsc] (in [polyfun.py]) leaves in [self.hsqhat]:
    [jknife_est] is the row [jknife.est[0, :]]. *)
Record Hsq : Type := mkHsq {
  jknife_est : list F;
  n_annot : nat;
  Nbar : F
}.

(** Line 179. *)
Definition taus_of (hsqhat : Hsq) : list F :=
  map (fun e => ndiv N e (Nbar hsqhat))
      (firstn (n_annot hsqhat) (jknife_est hsqhat)).

(** [pd.read_table(path, sep='\t')]: the records of the file, taken
    to be tab-delimited, labelled by position. *)
Definition read_table (path : string) : io F (DataFrame F) :=
  fun fs =>
    match read_file path fs with
    | None => (Raise (IOError path), fs)
    | Some f =>
        (Ok (mkDF (header f)
                  (combine (map fmt_d (arange 0 (Z.of_nat (List.length (records f)))))
                           (records f))),
         fs)
    end.

(** [df[c]]: the cells of a column. *)
Definition getitem (df : DataFrame F) (c : string) : result (list (cell F)) :=
  match col_index c (columns df) with
  | None => Raise (KeyError c)
  | Some i => Ok (map (fun r => nth i (snd r) CNaN) (rows df))
  end.

(** A cell as an operand of floating-point arithmetic. *)
Definition cell_num (c : cell F) : result F :=
  match c with
  | CInt z => Ok (of_int N z)
  | CFloat x => Ok x
  | CBool b => Ok (of_int N (Z.b2z b))
  | CNaN => Ok (nnan N)
  | CStr _ => Raise (TypeError msg_not_numeric)
  end.

(** [taus * series], a numpy array times a pandas Series: element by
    element when the lengths agree; an array of length one is
    broadcast over the Series; a Series of length one is broadcast over
    the array, and the product then fails to fit the index of the
    Series; any other pair of lengths cannot be broadcast. *)
Definition mul_array_series (a s : list F) : result (list F) :=
  if (List.length a =? List.length s)%nat
  then Ok (map (fun p => nmul N (fst p) (snd p)) (combine a s))
  else match a, s with
       | [x], _ => Ok (map (fun y => nmul N x y) s)
       | _, [_] => Raise (ValueError msg_length_mismatch)
       | _, _ => Raise (ValueError msg_broadcast)
       end.

(** [series.sum()]: missing values are skipped. *)
Definition series_sum (s : list F) : F :=
  fold_left (nadd N) (filter (fun x => negb (nisnan N x)) s) (nzero N).

Fixpoint cumsum_from (acc : F) (s : list F) : list F :=
  match s with
  | [] => []
  | x :: s' =>
      if nisnan N x then nnan N :: cumsum_from acc s'
      else let acc' := nadd N acc x in acc' :: cumsum_from acc' s'
  end.

(** [series.cumsum()]: a missing value stays missing and is skipped. *)
Definition cumsum (s : list F) : list F := cumsum_from (nzero N) s.

(** [df[c] = series], where the series has the index of [df]. *)
Definition set_column (df : DataFrame F) (c : string) (s : list F)
  : DataFrame F :=
  match col_index c (columns df) with
  | Some i =>
      mkDF (columns df)
           (map (fun p => (fst (fst p), replace_nth i (CFloat (snd p)) (snd (fst p))))
                (combine (rows df) s))
  | None =>
      mkDF (columns df ++ [c])
           (map (fun p => (fst (fst p), snd (fst p) ++ [CFloat (snd p)]))
                (combine (rows df) s))
  end.

(** Lines 186-188 on the two operands: the columns [%H2] and [SUM_%H2]. *)
Definition localize (taus sizes : list F) : result (list F * list F) :=
  (h2 <- mul_array_series taus sizes ;;
   let h2 := map (fun x => ndiv N x (series_sum h2)) h2 in
   Ok (h2, cumsum h2))%py.

(** [df.to_csv(path, sep='\t', float_format='%0.5f', index=False)]. *)
Definition polyloc_csv (df : DataFrame F) : csv F :=
  mkCsv tab (Some "%0.5f") (columns df) (map snd (rows df)).

(** [compute_polyloc], given what [run_ldsc] left in [self.hsqhat]. The
    value returned is [df_polyloc]. *)
Definition compute_polyloc (hsqhat : Hsq) (output_prefix : string)
  : io F (DataFrame F) :=
  (let taus := taus_of hsqhat in
   df_binsize <- read_table (output_prefix ++ ".binsize") ;;
   let df_polyloc := df_binsize in
   bin_size <- io_lift (getitem df_polyloc "BIN_SIZE") ;;
   sizes <- io_lift (map_result cell_num bin_size) ;;
   cols <- io_lift (localize taus sizes) ;;
   let df_polyloc := set_column df_polyloc H2 (fst cols) in
   let df_polyloc := set_column df_polyloc SUM_H2 (snd cols) in
   io_write (output_prefix ++ ".polyloc") (polyloc_csv df_polyloc) ;;;
   io_ret df_polyloc)%io.

(** [df_binsize] as [read_table] returns it for the file that
    [polyloc_partitions] wrote from the bin sizes [table]. *)
Definition binsize_frame (table : list (Z * Z)) : DataFrame F :=
  mkDF ["BIN"; "BIN_SIZE"]
       (combine (map fmt_d (arange 0 (Z.of_nat (List.length table))))
                (map (fun p => [CInt (fst p); CInt (snd p)]) table)).

(** The column [BIN_SIZE] of that frame, as floating-point operands. *)
Definition sizes_of (table : list (Z * Z)) : list F :=
  map (fun p => of_int N (snd p)) table.

(** [taus * df_polyloc['BIN_SIZE']] when the lengths agree. *)
Definition contributions (taus sizes : list F) : list F :=
  map (fun p => nmul N (fst p) (snd p)) (combine taus sizes).

(** [df_polyloc] with its two new columns. *)
Definition polyloc_frame (table : list (Z * Z)) (h2 sum_h2 : list F)
  : DataFrame F :=
  set_column (set_column (binsize_frame table) H2 h2) SUM_H2 sum_h2.

(** The floating-point column [c] of a frame. *)
Definition float_column (df : DataFrame F) (c : string) : option (list F) :=
  match col_index c (columns df) with
  | None => None
  | Some i =>
      Some (map (fun r => match nth i (snd r) CNaN with
                          | CFloat x => x
                          | _ => nnan N
                          end) (rows df))
  end.

End Localization.

Arguments jknife_est {N} _.
Arguments n_annot {N} _.
Arguments Nbar {N} _.


(** ** Exact arithmetic on the localization table *)

(** The sum of a list of rationals, accumulated from the left. *)
Definition qsum (l : list Q) : Q := fold_left Qplus l 0%Q.



(** Finite regression results: the estimates [est] and the average
    sample size [nb]. *)
Definition exact_hsq (est : list Q) (n_annot : nat) (nb : Q) : Hsq ExactQ :=
  mkHsq ExactQ (map Some est) n_annot (Some nb).

(** [contribution[i] = coefficients[i] * binSizes[i]], as rationals. *)
Definition exact_contributions (est : list Q) (n_annot : nat) (nb : Q)
    (table : list (Z * Z)) : list Q :=
  map (fun p => (fst p / nb) * inject_Z (snd (snd p)))%Q
      (combine (firstn n_annot est) table).

(** ** Scenarios *)

(** Duplicate-freeness of a list of keys, as a test. *)
Fixpoint nodupb (l : list string) : bool :=
  match l with
  | [] => true
  | x :: l' => negb (mem x l') && nodupb l'
  end.

Module Scenario.

Definition bim_of (chr : Z) (id : string) (bp : Z) : bim_line Q :=
  mkBim chr id 0%Q bp "A" "C".

Definition snp_of (chr : Z) (id : string) (bp : Z) (bins : list bool)
  : snp_row :=
  mkSnp chr id bp "A" "C" bins.

(** The scenario of the specification: U = {v1..v5} on two
    chromosomes, P = {v1, v2, v3} labelled with the bins {1, 1, 2}. *)
Definition bim (chr_num : Z) : list (bim_line Q) :=
  if (chr_num =? 1)%Z
  then [bim_of 1 "rs1" 101; bim_of 1 "rs2" 102; bim_of 1 "rs3" 103]
  else if (chr_num =? 2)%Z
       then [bim_of 2 "rs4" 201; bim_of 2 "rs5" 202]
       else [].

Definition P : list snp_row :=
  [snp_of 1 "rs1" 101 [true; false]; snp_of 1 "rs2" 102 [true; false];
   snp_of 1 "rs3" 103 [false; true]].

(** A posterior file that names a variant the [.bim] files lack. *)
Definition P_unknown : list snp_row :=
  [snp_of 1 "rs1" 101 [true; false]; snp_of 7 "rs9" 909 [false; true]].

(** Sources with repeated variant keys: [rs1] twice in the posterior
    file, and twice in the [.bim] file of chromosome 1. *)
Definition bim_dup (chr_num : Z) : list (bim_line Q) :=
  if (chr_num =? 1)%Z
  then [bim_of 1 "rs1" 101; bim_of 1 "rs1" 101; bim_of 1 "rs2" 102]
  else [].

Definition P_dup : list snp_row :=
  [snp_of 1 "rs1" 101 [true]; snp_of 1 "rs1" 101 [true]].

(** Two distinct variants of the posterior file whose keys coincide:
    [rs1] with the alleles AC/G and with the alleles A/CG both have
    the key [rs1ACG]. The universe has the first of them and [rs2]. *)
Definition P_collide : list snp_row :=
  [mkSnp 1 "rs1" 101 "AC" "G" [true]; mkSnp 1 "rs1" 101 "A" "CG" [true]].

Definition bim_two (chr_num : Z) : list (bim_line Q) :=
  if (chr_num =? 1)%Z
  then [mkBim 1 "rs1" 0%Q 101 "AC" "G"; mkBim 1 "rs2" 0%Q 102 "A" "C"]
  else [].

(** The same two variants in the universe, and the first of them alone
    in the posterior file: keys(U) = keys(P) = {rs1ACG}. *)
Definition bim_collide (chr_num : Z) : list (bim_line Q) :=
  if (chr_num =? 1)%Z
  then [mkBim 1 "rs1" 0%Q 101 "AC" "G"; mkBim 1 "rs1" 0%Q 101 "A" "CG"]
  else [].

Definition P_single : list snp_row := [mkSnp 1 "rs1" 101 "AC" "G" [true]].

(** The matrix [polyloc_partitions] leaves for [bim] and [P]. *)
Definition matrix : DataFrame Q := completed 2 (universe bim) P.

(** [save_bins_to_disk] writing nothing. *)
Definition no_save (df : DataFrame Q) (fs : files Q) : files Q := fs.

(** The bin sizes of the specification's scenario, and the files once
    [polyloc_partitions] has written them under the prefix [out]. *)
Definition sizes : list (Z * Z) := [(1, 2); (2, 1); (3, 2)]%Z.

Definition persisted (F : Type) (table : list (Z * Z)) : files F :=
  [("out.binsize", binsize_csv table)].

(** Coefficients 0.1, 0.3, 0.2 (and an intercept) with average sample
    size 1. *)
Definition est : list Q := [1 # 10; 3 # 10; 2 # 10; 1]%Q.

Import PrimFloat.




(** Two coefficients, for three persisted bins. *)
Definition hsq_two : Hsq Float64 :=
  mkHsq Float64 [1; 1; 1]%float 2 1%float.


Definition sizes_negative : list (Z * Z) := [(1, 1); (2, 1)]%Z.


End Scenario.

(** ** check_args: the rules as one test *)

Definition ld_wind_given (a : Args.t) : bool := negb (no_ld_wind a).

(** The argument sets that break none of the rules of [check_args],
    rule by rule in the order of the source. *)
Definition consistent (a : Args.t) : bool :=
  let p := Args.compute_partitions a in
  let l := Args.compute_ldscores a in
  let c := Args.compute_polyloc a in
  (p || l || c)
  && negb (p && c && negb l)
  && negb (is_not_None (Args.chr a) && (p || c))
  && negb (is_not_None (Args.bfile_chr a) && (negb l && negb p))
  && negb (l && c && negb p)
  && negb (is_not_None (Args.posterior a) && negb p)
  && negb (is_not_None (Args.sumstats a) && negb c)
  && negb (Args.skip_Ckmedian a && num_bins_invalid (Args.num_bins a))
  && negb (p && is_None (Args.bfile_chr a))
  && negb (p && is_None (Args.posterior a))
  && negb (l && is_None (Args.bfile_chr a))
  && negb (negb l && ld_wind_given a)
  && negb (negb l && is_not_None (Args.keep a))
  && negb (negb l && is_not_None (Args.chr a))
  && negb (c && is_None (Args.sumstats a))
  && negb (c && is_None (Args.w_ld_chr a)).

(** The arguments [check_args] returns for accepted arguments [a]. *)
Definition with_default_window (a : Args.t) : Args.t :=
  if Args.compute_ldscores a && no_ld_wind a
  then Args.set_ld_wind_cm a (Some 1%Q)
  else a.

(** The requirements on an argument set, as they read on the command
    line: which parameters go with which stages. *)
Definition well_formed (a : Args.t) : Prop :=
  let p := Args.compute_partitions a in
  let l := Args.compute_ldscores a in
  let c := Args.compute_polyloc a in
  (p = true \/ l = true \/ c = true)
  /\ (c = true -> p = l)
  /\ (Args.chr a <> None -> p = false /\ l = true /\ c = false)
  /\ (Args.bfile_chr a <> None <-> p = true \/ l = true)
  /\ (Args.posterior a <> None <-> p = true)
  /\ (Args.sumstats a <> None <-> c = true)
  /\ (Args.w_ld_chr a = None -> c = false)
  /\ (Args.skip_Ckmedian a = true ->
      exists k, Args.num_bins a = Some k /\ (0 < k)%Z)
  /\ (ld_wind_given a = true -> l = true)
  /\ (Args.keep a <> None -> l = true).

(** ** check_files (lines 77-99) *)

Definition msg_exists_none : string :=
  "stat: path should be string, bytes, os.PathLike or integer, not NoneType".

(** A [for] loop whose body may raise. *)
Fixpoint for_each {A : Type} (body : A -> result unit) (l : list A)
  : result unit :=
  match l with
  | [] => Ok tt
  | x :: l' => (_ <- body x ;; for_each body l')%py
  end.

Section Files.

(** [os.path.exists]. *)
Variable path_exists : string -> bool.

(** [get_file_name args kind chr_num] stands for the call
    [get_file_name(args, kind, chr_num, verify_exists=True)] of
    [polyfun.py], which is not among the sources: it returns a file
    name or raises. *)
Variable get_file_name : Args.t -> string -> Z -> result string.

Definition verify (args : Args.t) (kind : string) (chr_num : Z) : result unit :=
  (_ <- get_file_name args kind chr_num ;; Ok tt)%py.

(** Lines 79-81. *)
Definition check_posterior_file (args : Args.t) : result unit :=
  if Args.compute_partitions args then
    match Args.posterior args with
    | None => Raise (TypeError msg_exists_none)
    | Some posterior =>
        if path_exists posterior then Ok tt
        else Raise (IOError (posterior ++ " not found"))
    end
  else Ok tt.

(** Lines 84-93. *)
Definition check_plink_files (args : Args.t) : result unit :=
  if Args.compute_ldscores args || Args.compute_partitions args then
    let chr_range :=
      match Args.chr args with
      | None => arange 1 23
      | Some c => arange c (c + 1)
      end in
    for_each
      (fun chr_num =>
         (_ <- verify args "bim" chr_num ;;
          _ <- verify args "fam" chr_num ;;
          _ <- verify args "bed" chr_num ;;
          if negb (Args.compute_partitions args)
          then verify args "bins" chr_num
          else Ok tt)%py)
      chr_range
  else Ok tt.

(** Lines 95-99. *)
Definition check_weights_files (args : Args.t) : result unit :=
  if Args.compute_polyloc args then
    for_each
      (fun chr_num =>
         (_ <- verify args "w-ld" chr_num ;;
          if negb (Args.compute_partitions args)
          then verify args "bins" chr_num
          else Ok tt)%py)
      (arange 1 23)
  else Ok tt.

Definition check_files (args : Args.t) : result unit :=
  (_ <- check_posterior_file args ;;
   _ <- check_plink_files args ;;
   check_weights_files args)%py.

End Files.

(** ** The files a run needs *)

(** The chromosomes the first loop of [check_files] visits. *)
Definition in_chr_range (a : Args.t) (chr_num : Z) : Prop :=
  match Args.chr a with
  | None => (1 <= chr_num < 23)%Z
  | Some c => chr_num = c
  end.

(** The files of kind [kind] and chromosome [chr_num] a run with the
    arguments [a] needs: the genotype files for partitioning and
    LD-scores, the weights for localization, and the bins of an earlier
    run when this run does not partition. *)
Definition required (a : Args.t) (kind : string) (chr_num : Z) : Prop :=
  ((Args.compute_ldscores a = true \/ Args.compute_partitions a = true)
   /\ in_chr_range a chr_num
   /\ (kind = "bim" \/ kind = "fam" \/ kind = "bed"
       \/ (kind = "bins" /\ Args.compute_partitions a = false)))
  \/ (Args.compute_polyloc a = true
      /\ (1 <= chr_num < 23)%Z
      /\ (kind = "w-ld"
          \/ (kind = "bins" /\ Args.compute_partitions a = false))).

(** The least arguments of an LD-score run on chromosome [c]. *)
Definition chromosome_args (c : Z) : Args.t :=
  Args.mk false true false None false (Some c) None None None None
    None None None (Some "plink.") "out".

(** ** load_posterior_betas (lines 111-130) *)

(** [str.upper] on a character: the letters a-z; column names are
    taken to be ASCII. *)
Definition upper_ascii (c : ascii) : ascii :=
  let n := nat_of_ascii c in
  if ((97 <=? n) && (n <=? 122))%nat then ascii_of_nat (n - 32) else c.

Fixpoint str_upper (s : string) : string :=
  match s with
  | EmptyString => EmptyString
  | String c s' => String (upper_ascii c) (str_upper s')
  end.

(** [SNP_COLUMNS + ['BETA_MEAN', 'BETA_SD']]. *)
Definition REQUIRED_COLUMNS : list string :=
  SNP_COLUMNS ++ ["BETA_MEAN"; "BETA_SD"].

Definition msg_missing_column (posterior column : string) : string :=
  posterior ++ " has a missing column: " ++ column.

Definition msg_missing_columns (posterior : string) : string :=
  posterior ++ " has missing columns".

Definition SNPVAR : string := "SNPVAR".

Definition msg_pow_operand : string :=
  "unsupported operand type(s) for ** or pow(): 'str' and 'int'".

Section Posterior.

Variable N : numeric.

Local Abbreviation F := (num N).

(** Lines 121-125: the loop over the required columns, with the flag
    [has_missing_col] and the errors logged so far. *)
Definition check_columns (posterior : string) (cols : list string)
  : bool * list string :=
  fold_left
    (fun st column =>
       if negb (mem column cols)
       then (true, snd st ++ [msg_missing_column posterior column])
       else st)
    REQUIRED_COLUMNS (false, []).

(** [x**2 + y**2] on two columns of the same frame. *)
Definition sum_of_squares (xs ys : list F) : list F :=
  map (fun p => nadd N (nmul N (fst p) (fst p)) (nmul N (snd p) (snd p)))
      (combine xs ys).

(** A cell as the operand of [**]: a string has no power. *)
Definition pow_operand (c : cell F) : result F :=
  match c with
  | CStr _ => Raise (TypeError msg_pow_operand)
  | _ => cell_num N c
  end.

(** Line 118: [df.columns = df.columns.str.upper()]. *)
Definition upper_columns (df : DataFrame F) : DataFrame F :=
  mkDF (map str_upper (columns df)) (rows df).

(** [load_posterior_betas], given the frame the reader returned for the
    file [posterior]: the frame left in [self.df_snpvar], or the
    exception, together with the errors logged. The upper-cased column
    names are taken to be distinct, and BETA_MEAN and BETA_SD are read as
    floating-point columns: an integer or boolean cell is converted
    before it is squared. *)
Definition load_posterior_betas (posterior : string)
    (df_posterior : DataFrame F) : result (DataFrame F) * list string :=
  let df_posterior := upper_columns df_posterior in
  let st := check_columns posterior (columns df_posterior) in
  if fst st
  then (Raise (ValueError (msg_missing_columns posterior)), snd st)
  else
    ((mean <- getitem N df_posterior "BETA_MEAN" ;;
      mean <- map_result pow_operand mean ;;
      sd <- getitem N df_posterior "BETA_SD" ;;
      sd <- map_result pow_operand sd ;;
      Ok (set_column N df_posterior SNPVAR (sum_of_squares mean sd)))%py,
     snd st).


(** The required columns a header lacks, in the order of the list. *)
Definition missing_columns (cols : list string) : list string :=
  filter (fun c => negb (mem c (map str_upper cols))) REQUIRED_COLUMNS.

End Posterior.



(** ** polyloc_main (lines 196-208) *)

Section Main.

Variable N : numeric.

Local Abbreviation F := (num N).

Variable save_bins_to_disk : DataFrame F -> files F -> files F.

(** [compute_ld_scores] belongs to [polyfun.py]; it is taken as a
    parameter. *)
Variable compute_ld_scores : Args.t -> io F unit.

(** What [run_ldsc] computes from the files present. *)
Variable run_ldsc : Args.t -> files F -> Hsq N.

Definition when (b : bool) (stage : io F unit) : io F unit :=
  if b then stage else io_ret tt.

(** [polyloc_main]; [bim], [K] and [P] are the inputs of
    [polyloc_partitions]. *)
Definition polyloc_main (args : Args.t) (bim : Z -> list (bim_line F))
    (K : nat) (P : list snp_row) : io F unit :=
  (when (Args.compute_partitions args)
     (polyloc_partitions save_bins_to_disk bim K P (Args.output_prefix args)
      ;;; io_ret tt) ;;;
   when (Args.compute_ldscores args) (compute_ld_scores args) ;;;
   when (Args.compute_polyloc args)
     (fun fs =>
        (compute_polyloc N (run_ldsc args fs) (Args.output_prefix args)
         ;;; io_ret tt)%io fs))%io.

(** A stage that leaves the file at [path] as it is. *)
Definition preserves (path : string) (stage : io F unit) : Prop :=
  forall fs, exists fs',
    stage fs = (Ok tt, fs') /\ read_file path fs' = read_file path fs.

End Main.

(** ** A run of the three stages *)

Module Pipeline.

(** The universe of the specification's scenario, in exact arithmetic. *)
Definition bim (chr_num : Z) : list (bim_line (num ExactQ)) :=
  if (chr_num =? 1)%Z
  then [mkBim 1 "rs1" (Some 0%Q) 101 "A" "C";
        mkBim 1 "rs2" (Some 0%Q) 102 "A" "C";
        mkBim 1 "rs3" (Some 0%Q) 103 "A" "C"]
  else if (chr_num =? 2)%Z
       then [mkBim 2 "rs4" (Some 0%Q) 201 "A" "C";
             mkBim 2 "rs5" (Some 0%Q) 202 "A" "C"]
       else [].

Definition args : Args.t := minimal_args true true true.

(** Only localization, from the files of an earlier run. *)
Definition args_localize : Args.t := minimal_args false false true.

Definition no_save (df : DataFrame (num ExactQ)) (fs : files (num ExactQ))
  : files (num ExactQ) := fs.

(** An LD-score stage that writes one file of its own. *)
Definition ld_scores (a : Args.t) : io (num ExactQ) unit :=
  io_write (Args.output_prefix a ++ ".l2.ldscore") (mkCsv tab None [] []).

(** Regression results that do not depend on the files. *)
Definition ldsc (a : Args.t) (fs : files (num ExactQ)) : Hsq ExactQ :=
  exact_hsq Scenario.est 3 1.

End Pipeline.

Module Missing.

Import PrimFloat.

(** Regression results whose first estimate is not a number. *)
Definition hsq_nan : Hsq Float64 := mkHsq Float64 [nan; 1; 1]%float 2 1%float.

End Missing.

(** * Properties *)

(** ** check_args *)

Lemma stage_msgs_distinct :
  forall msg, In msg stage_combination_msgs ->
    msg <> msg_chr_only_ldscores /\ msg <> msg_bfile_chr_stage /\
    msg <> msg_posterior_stage /\ msg <> msg_sumstats_stage /\
    msg <> msg_num_bins /\ msg <> msg_bfile_chr_partitions /\
    msg <> msg_posterior_required /\ msg <> msg_bfile_chr_ldscores /\
    msg <> msg_ld_wind_stage /\ msg <> msg_keep_stage /\
    msg <> msg_chr_stage /\ msg <> msg_sumstats_required /\
    msg <> msg_w_ld_chr_required.
Proof.
  intros msg H; simpl in H.
  destruct H as [<- | [<- | [<- | []]]]; repeat split; discriminate.
Qed.

(** A rejection of a permitted flag combination comes from a rule about
    parameters, never from a stage-combination rule. *)
Lemma check_args_other_rules :
  forall a msg,
    forbidden_combination (stage_flags a) = false ->
    check_args a = Raise (ValueError msg) ->
    ~ In msg stage_combination_msgs.
Proof.
  intros a msg Hf Hr Hin.
  pose proof (stage_msgs_distinct msg Hin) as D.
  destruct a as [p l c nb sk ch cm kb sn kp ss po wl bf op].
  unfold stage_flags in Hf; simpl in Hf.
  unfold check_args, ldscores_defaults in Hr; simpl in Hr.
  destruct p, l, c; simpl in Hf; try discriminate Hf; simpl in Hr;
    repeat (match type of Hr with
            | context [if ?b then _ else _] => destruct b; simpl in Hr
            end);
    try discriminate Hr;
    injection Hr as <-; intuition congruence.
Qed.

Lemma check_args_no_mode :
  forall a, stage_flags a = (false, false, false) ->
    check_args a = Raise (ValueError msg_no_mode).
Proof.
  intros a H; unfold stage_flags in H; injection H as Hp Hl Hc.
  unfold check_args; rewrite Hp, Hl, Hc; reflexivity.
Qed.

Lemma check_args_partitions_polyloc :
  forall a, Args.compute_partitions a = true ->
    Args.compute_polyloc a = true -> Args.compute_ldscores a = false ->
    check_args a = Raise (ValueError msg_partitions_polyloc).
Proof.
  intros a Hp Hc Hl; unfold check_args; rewrite Hp, Hl, Hc; reflexivity.
Qed.

Lemma check_args_ldscores_polyloc :
  forall a, Args.compute_ldscores a = true ->
    Args.compute_polyloc a = true -> Args.compute_partitions a = false ->
    check_args a =
    Raise (ValueError (if is_None (Args.chr a) then msg_ldscores_polyloc
                       else msg_chr_only_ldscores)).
Proof.
  intros a Hl Hc Hp; unfold check_args; rewrite Hp, Hl, Hc; simpl.
  unfold is_not_None; destruct (is_None (Args.chr a)); simpl; [|reflexivity].
  rewrite andb_false_r; reflexivity.
Qed.

Lemma minimal_args_accepted :
  forall p l c, forbidden_combination (p, l, c) = false ->
    stage_flags (minimal_args p l c) = (p, l, c) /\
    is_ok (check_args (minimal_args p l c)) = true.
Proof.
  intros p l c H; destruct p, l, c; try discriminate H; split; reflexivity.
Qed.

(** C9. Stage-combination validation. [check_args] fails (with a
    [ValueError], the code's configuration error) when no stage flag is
    set, when partition and localize are set without ldscore, and when
    ldscore and localize are set without partition. The three
    stage-combination messages are raised for no other combination of the
    flags, and every other combination is accepted once its parameters
    are supplied. *)
Theorem check_args_stage_combinations :
  (forall a, stage_flags a = (false, false, false) ->
     check_args a = Raise (ValueError msg_no_mode))
  /\ (forall a, Args.compute_partitions a = true ->
        Args.compute_polyloc a = true -> Args.compute_ldscores a = false ->
        check_args a = Raise (ValueError msg_partitions_polyloc))
  /\ (forall a, Args.compute_ldscores a = true ->
        Args.compute_polyloc a = true -> Args.compute_partitions a = false ->
        exists msg, check_args a = Raise (ValueError msg) /\
                    (Args.chr a = None -> msg = msg_ldscores_polyloc))
  /\ (forall a msg, check_args a = Raise (ValueError msg) ->
        In msg stage_combination_msgs ->
        forbidden_combination (stage_flags a) = true)
  /\ (forall p l c, forbidden_combination (p, l, c) = false ->
        stage_flags (minimal_args p l c) = (p, l, c) /\
        is_ok (check_args (minimal_args p l c)) = true).
Proof.
  split; [exact check_args_no_mode|].
  split; [exact check_args_partitions_polyloc|].
  split.
  { intros a Hl Hc Hp; eexists; split.
    - apply check_args_ldscores_polyloc; assumption.
    - intros ->; reflexivity. }
  split; [|exact minimal_args_accepted].
  intros a msg Hr Hin.
  destruct (forbidden_combination (stage_flags a)) eqn:Hf; [reflexivity|].
  exfalso; exact (check_args_other_rules a msg Hf Hr Hin).
Qed.

(** ** Lists, masks and column names *)

Lemma mem_In : forall x l, mem x l = true <-> In x l.
Proof.
  intros x l; unfold mem; rewrite existsb_exists; split.
  - intros [y [Hy He]]; apply String.eqb_eq in He; subst; exact Hy.
  - intros H; exists x; split; [exact H | apply String.eqb_refl].
Qed.

Lemma mem_false : forall x l, mem x l = false <-> ~ In x l.
Proof.
  intros x l; rewrite <- mem_In; destruct (mem x l); split; intros H;
    try reflexivity; try discriminate; try (intros A; discriminate A).
  exfalso; apply H; reflexivity.
Qed.

Lemma filter_none :
  forall (A : Type) (f : A -> bool) (l : list A),
    (forall x, In x l -> f x = false) -> filter f l = [].
Proof.
  induction l as [|x l IH]; intros H; simpl; [reflexivity|].
  rewrite (H x) by (left; reflexivity).
  apply IH; intros y Hy; apply H; right; exact Hy.
Qed.

Lemma mask_select_map :
  forall (A : Type) (f : A -> bool) (xs : list A),
    mask_select xs (map f xs) = filter f xs.
Proof.
  induction xs as [|x xs IH]; simpl; [reflexivity|].
  rewrite IH; reflexivity.
Qed.

Lemma mask_select_isin :
  forall (A : Type) (key : A -> string) (xs : list A) (ys : list string),
    mask_select (map key xs) (invert (isin (map key xs) ys)) =
    map key (filter (fun x => negb (mem (key x) ys)) xs).
Proof.
  intros A key xs ys; unfold invert, isin.
  induction xs as [|x xs IH]; simpl; [reflexivity|].
  destruct (mem (key x) ys); simpl; rewrite IH; reflexivity.
Qed.

Lemma np_any_isin :
  forall xs ys, np_any (invert (isin xs ys)) = false <-> incl xs ys.
Proof.
  intros xs ys; unfold np_any, invert, isin.
  induction xs as [|x xs IH]; simpl.
  - split; [intros _ y [] | reflexivity].
  - rewrite orb_false_iff, IH, negb_false_iff, mem_In; split.
    + intros [Hx Hi] y [<- | Hy]; [exact Hx | exact (Hi y Hy)].
    + intros Hi; split; [apply Hi; left; reflexivity|].
      intros y Hy; apply Hi; right; exact Hy.
Qed.

Lemma np_any_isin_true :
  forall xs ys k, In k xs -> ~ In k ys ->
    np_any (invert (isin xs ys)) = true.
Proof.
  intros xs ys k Hk Hn.
  destruct (np_any (invert (isin xs ys))) eqn:E; [reflexivity|].
  apply np_any_isin in E; exfalso; exact (Hn (E k Hk)).
Qed.

Lemma col_index_None : forall c cols, col_index c cols = None <-> ~ In c cols.
Proof.
  induction cols as [|c' cols IH]; simpl.
  - split; [intros _ [] | reflexivity].
  - destruct (String.eqb_spec c c') as [->|Hne].
    + split; [discriminate | intros H; exfalso; apply H; left; reflexivity].
    + destruct (col_index c cols) eqn:E; simpl.
      * split; [discriminate|].
        intros H; exfalso; apply H; right.
        destruct (in_dec string_dec c cols) as [Hi|Hi]; [exact Hi|].
        apply IH in Hi; discriminate.
      * split; [|reflexivity].
        intros _ [H|H]; [exact (Hne (eq_sym H))|].
        revert H; apply IH; reflexivity.
Qed.

Lemma col_index_nth :
  forall cols j d, NoDup cols -> (j < List.length cols)%nat ->
    col_index (nth j cols d) cols = Some j.
Proof.
  induction cols as [|c cols IH]; intros j d Hnd Hj; simpl in Hj; [lia|].
  inversion Hnd as [|? ? Hc Hnd']; subst.
  destruct j as [|j]; simpl.
  - rewrite String.eqb_refl; reflexivity.
  - destruct (String.eqb_spec (nth j cols d) c) as [E|_].
    + exfalso; apply Hc; rewrite <- E; apply nth_In; lia.
    + rewrite IH by (assumption || lia); reflexivity.
Qed.


(** ** Decimal column names *)

Lemma to_int_not_nil :
  forall z, Z.to_int z <> Decimal.Pos Decimal.Nil /\
            Z.to_int z <> Decimal.Neg Decimal.Nil.
Proof.
  intros z; split; intros H;
    pose proof (DecimalZ.of_to z) as E; rewrite H in E;
    simpl in E; subst z; discriminate H.
Qed.

Lemma fmt_d_inj : forall a b, fmt_d a = fmt_d b -> a = b.
Proof.
  intros a b H; unfold fmt_d in H.
  apply DecimalZ.to_int_inj.
  destruct (to_int_not_nil a) as [A1 A2], (to_int_not_nil b) as [B1 B2].
  pose proof (NilZero.isi _ A1 A2) as Ia.
  pose proof (NilZero.isi _ B1 B2) as Ib.
  rewrite H in Ia; rewrite Ia in Ib; injection Ib as E; exact E.
Qed.

Lemma bin_colname_inj : forall a b, bin_colname a = bin_colname b -> a = b.
Proof.
  intros a b H; unfold bin_colname in H; simpl in H.
  apply fmt_d_inj; congruence.
Qed.

Lemma bin_colname_not_snp : forall i, mem (bin_colname i) SNP_COLUMNS = false.
Proof. intros i; reflexivity. Qed.

Lemma arange_length :
  forall a b, List.length (arange a b) = Z.to_nat (b - a).
Proof. intros a b; unfold arange; rewrite length_map, length_seq; reflexivity. Qed.

Lemma arange_In :
  forall a b x, In x (arange a b) <-> (a <= x < b)%Z.
Proof.
  intros a b x; unfold arange; rewrite in_map_iff; split.
  - intros [i [<- Hi]]; apply in_seq in Hi; lia.
  - intros H; exists (Z.to_nat (x - a)); split; [lia|].
    apply in_seq; lia.
Qed.

Lemma arange_NoDup : forall a b, NoDup (arange a b).
Proof.
  intros a b; unfold arange.
  apply Injective_map_NoDup; [|apply seq_NoDup].
  intros i j H; lia.
Qed.

Lemma arange_snoc :
  forall n, arange 1 (Z.of_nat (S n) + 1) =
            arange 1 (Z.of_nat n + 1) ++ [Z.of_nat n + 1]%Z.
Proof.
  intros n; unfold arange.
  replace (Z.to_nat (Z.of_nat (S n) + 1 - 1)) with (S n) by lia.
  replace (Z.to_nat (Z.of_nat n + 1 - 1)) with n by lia.
  rewrite seq_S, map_app; cbn [map]; f_equal.
  replace (1 + Z.of_nat (0 + n))%Z with (Z.of_nat n + 1)%Z by lia; reflexivity.
Qed.

Lemma bin_names_length : forall K, List.length (bin_names K) = K.
Proof. intros K; unfold bin_names; rewrite length_map, arange_length; lia. Qed.

Lemma bin_names_S :
  forall K, bin_names (S K) = bin_names K ++ [bin_colname (Z.of_nat K + 1)].
Proof. intros K; unfold bin_names; rewrite arange_snoc, map_app; reflexivity. Qed.

Lemma bin_names_not_snp :
  forall K, forallb (fun c => negb (mem c SNP_COLUMNS)) (bin_names K) = true.
Proof.
  intros K; apply forallb_forall; intros c Hc.
  unfold bin_names in Hc; apply in_map_iff in Hc; destruct Hc as [i [<- _]].
  reflexivity.
Qed.

Lemma bin_names_NoDup : forall K, NoDup (bin_names K).
Proof.
  intros K; unfold bin_names.
  apply Injective_map_NoDup; [|apply arange_NoDup].
  intros a b; apply bin_colname_inj.
Qed.

Lemma bin_columns_NoDup : forall K, NoDup (SNP_COLUMNS ++ bin_names K).
Proof.
  intros K.
  assert (D : forall c, In c (bin_names K) -> ~ In c SNP_COLUMNS).
  { intros c Hc; apply mem_false.
    pose proof (bin_names_not_snp K) as H.
    rewrite forallb_forall in H; specialize (H c Hc).
    apply negb_true_iff in H; exact H. }
  assert (S5 : NoDup SNP_COLUMNS).
  { unfold SNP_COLUMNS; repeat constructor; simpl; intuition discriminate. }
  revert S5 D; generalize (bin_names_NoDup K); generalize (bin_names K).
  generalize SNP_COLUMNS; intros s; induction s as [|x s IH];
    intros l Hl Hs D; simpl; [exact Hl|].
  inversion Hs as [|? ? Hx Hs']; subst.
  constructor.
  - rewrite in_app_iff; intros [H|H]; [exact (Hx H)|].
    apply (D x H); left; reflexivity.
  - apply IH; [exact Hl | exact Hs'|].
    intros c Hc Hin; apply (D c Hc); right; exact Hin.
Qed.

Lemma residual_name_new :
  forall K, ~ In (bin_colname (Z.of_nat K + 1)) (SNP_COLUMNS ++ bin_names K).
Proof.
  intros K H.
  pose proof (bin_columns_NoDup (S K)) as N.
  rewrite bin_names_S, app_assoc in N.
  apply NoDup_remove_2 in N; rewrite app_nil_r in N; exact (N H).
Qed.

(** ** Frames *)

Section FrameFacts.

Context {F : Type}.

Implicit Types (d df : DataFrame F) (r : row F) (v : cell F).
Implicit Types (rs sub : list (row F)).

Lemma setitem_new :
  forall d c v, ~ In c (columns d) ->
    setitem d c v =
    mkDF (columns d ++ [c]) (map (fun r => (fst r, snd r ++ [v])) (rows d)).
Proof.
  intros d c v H; unfold setitem.
  apply col_index_None in H; rewrite H; reflexivity.
Qed.

Lemma fold_setitem_new :
  forall v ns d, NoDup ns -> (forall n, In n ns -> ~ In n (columns d)) ->
    fold_left (fun d c => setitem d c v) ns d =
    mkDF (columns d ++ ns)
         (map (fun r => (fst r, snd r ++ repeat v (List.length ns))) (rows d)).
Proof.
  intros v ns; induction ns as [|n ns IH]; intros d Hnd Hnew; simpl.
  - rewrite app_nil_r. destruct d as [cs rs]; simpl; f_equal.
    rewrite <- (map_id rs) at 1; apply map_ext; intros [l cells]; simpl.
    rewrite app_nil_r; reflexivity.
  - inversion Hnd as [|? ? Hn Hnd']; subst.
    rewrite setitem_new by (apply Hnew; left; reflexivity).
    rewrite IH; [|exact Hnd'|].
    + simpl; rewrite <- app_assoc; simpl; f_equal.
      rewrite map_map; apply map_ext; intros [l cells]; simpl.
      rewrite <- app_assoc; reflexivity.
    + intros m Hm; simpl; rewrite in_app_iff; intros [H|[H|[]]].
      * apply (Hnew m); [right; exact Hm | exact H].
      * subst; exact (Hn Hm).
Qed.

Lemma rows_labelled_found :
  forall k rs, In k (map fst rs) ->
    rows_labelled k rs = Ok (filter (fun r => String.eqb (fst r) k) rs).
Proof.
  intros k rs H; unfold rows_labelled.
  apply in_map_iff in H; destruct H as [r [E Hr]].
  assert (G : forall found : list (row F), In r found ->
            match found with
            | [] => Raise (KeyError k)
            | x :: l => Ok (x :: l)
            end = Ok found).
  { intros [|x l] Hin; [destruct Hin | reflexivity]. }
  apply G, filter_In; split; [exact Hr|].
  rewrite E; apply String.eqb_refl.
Qed.

Lemma loc_rows_found :
  forall labels rs, incl labels (map fst rs) ->
    loc_rows labels rs = Ok (located labels rs).
Proof.
  induction labels as [|k labels IH]; intros rs H; simpl; [reflexivity|].
  rewrite rows_labelled_found by (apply H; left; reflexivity); simpl.
  rewrite IH by (intros x Hx; apply H; right; exact Hx); reflexivity.
Qed.

Lemma located_label :
  forall labels rs r, In r (located labels rs) ->
    In (fst r) labels /\ In r rs.
Proof.
  intros labels rs r H; unfold located in H.
  apply in_flat_map in H; destruct H as [k [Hk Hr]].
  apply filter_In in Hr; destruct Hr as [Hr E].
  apply String.eqb_eq in E; subst; split; assumption.
Qed.

Lemma located_covers :
  forall labels rs k, In k labels -> In k (map fst rs) ->
    In k (map fst (located labels rs)).
Proof.
  intros labels rs k Hk Hi.
  apply in_map_iff in Hi; destruct Hi as [r [E Hr]].
  apply in_map_iff; exists r; split; [exact E|].
  unfold located; apply in_flat_map; exists k; split; [exact Hk|].
  apply filter_In; split; [exact Hr|]. rewrite E; apply String.eqb_refl.
Qed.

Lemma filter_unique_label :
  forall rs r, NoDup (map fst rs) -> In r rs ->
    filter (fun x => String.eqb (fst x) (fst r)) rs = [r].
Proof.
  induction rs as [|x rs IH]; intros r Hnd Hr; [destruct Hr|].
  simpl in Hnd; inversion Hnd as [|? ? Hx Hnd']; subst.
  simpl; destruct Hr as [->|Hr].
  - rewrite String.eqb_refl; f_equal.
    apply filter_none; intros y Hy.
    apply String.eqb_neq; intros E; apply Hx; rewrite <- E.
    apply in_map; exact Hy.
  - destruct (String.eqb_spec (fst x) (fst r)) as [E|_].
    + exfalso; apply Hx; rewrite E; apply in_map; exact Hr.
    + apply IH; assumption.
Qed.

(** With a duplicate-free index, [loc] on the labels a filter selects
    returns the rows that filter selects, once each. *)
Lemma located_filter :
  forall (p : string -> bool) rs, NoDup (map fst rs) ->
    located (filter p (map fst rs)) rs = filter (fun r => p (fst r)) rs.
Proof.
  intros p rs Hnd.
  assert (G : forall sub, incl sub rs ->
            located (filter p (map fst sub)) rs = filter (fun r => p (fst r)) sub).
  { induction sub as [|x sub IH]; intros Hs; [reflexivity|]; simpl.
    assert (Hsub : incl sub rs) by (intros y Hy; apply Hs; right; exact Hy).
    destruct (p (fst x)); simpl.
    - rewrite filter_unique_label by (auto; apply Hs; left; reflexivity).
      simpl; f_equal; apply IH; exact Hsub.
    - apply IH; exact Hsub. }
  apply G; intros x Hx; exact Hx.
Qed.

Lemma reindex_cells :
  forall cols (cells : list (cell F)),
    NoDup cols -> List.length cells = List.length cols ->
    map (fun c => match col_index c cols with
                  | Some i => nth i cells CNaN
                  | None => CNaN
                  end) cols = cells.
Proof.
  intros cols cells Hnd Hlen.
  apply (nth_ext _ _ CNaN CNaN); [rewrite length_map; lia|].
  intros j Hj; rewrite length_map in Hj.
  rewrite (nth_indep _ CNaN
             (match col_index "" cols with
              | Some i => nth i cells CNaN | None => CNaN end))
    by (rewrite length_map; exact Hj).
  rewrite (map_nth (fun c => match col_index c cols with
                             | Some i => nth i cells CNaN
                             | None => CNaN end) cols "" j).
  rewrite col_index_nth by assumption; reflexivity.
Qed.

Lemma reindex_same :
  forall df, NoDup (columns df) ->
    Forall (fun r => List.length (snd r) = List.length (columns df)) (rows df) ->
    reindex_columns (columns df) df = rows df.
Proof.
  intros [cols rs] Hnd Hr; simpl in *; unfold reindex_columns; simpl.
  induction rs as [|[l cells] rs IH]; [reflexivity|].
  inversion Hr as [|? ? Hc Hr']; subst; simpl in *.
  rewrite reindex_cells by assumption; f_equal; apply IH; exact Hr'.
Qed.

Lemma pd_concat_same :
  forall cols ra rb, NoDup cols ->
    Forall (fun r => List.length (snd r) = List.length cols) ra ->
    Forall (fun r => List.length (snd r) = List.length cols) rb ->
    pd_concat (mkDF cols ra) (mkDF cols rb) = mkDF cols (ra ++ rb).
Proof.
  intros cols ra rb Hnd Ha Hb; unfold pd_concat; simpl.
  assert (E : filter (fun c => negb (mem c cols)) cols = []).
  { apply filter_none; intros c Hc; apply negb_false_iff.
    apply mem_In; exact Hc. }
  rewrite E, app_nil_r.
  pose proof (reindex_same (mkDF cols ra) Hnd Ha) as Ea.
  pose proof (reindex_same (mkDF cols rb) Hnd Hb) as Eb.
  simpl in Ea, Eb; rewrite Ea, Eb; reflexivity.
Qed.

End FrameFacts.

(** ** The residual bin *)

Section ResidualBin.

Context {F : Type}.

Implicit Types (U : list (bim_line F)) (P : list snp_row).

Lemma index_bim_frame : forall U, index (bim_frame U) = map bim_key U.
Proof.
  intros U; unfold index, bim_frame; simpl.
  rewrite map_map; apply map_ext; reflexivity.
Qed.

Lemma index_bins_frame :
  forall K P, index (@bins_frame F K P) = posterior_keys P.
Proof.
  intros K P; unfold index, bins_frame, posterior_keys; simpl.
  rewrite map_map; apply map_ext; reflexivity.
Qed.

Lemma overwrite_identity :
  forall L : list (row F),
    fold_left (fun d c => setitem d c (CBool false)) SNP_COLUMNS
      (mkDF SNP_COLUMNS
         (map (fun r => (fst r, project [0; 1; 3; 4; 5]%nat (snd r))) L)) =
    mkDF SNP_COLUMNS (map (fun r => (fst r, repeat (CBool false) 5)) L).
Proof.
  intros L; unfold SNP_COLUMNS; cbn [fold_left].
  unfold setitem; cbn.
  f_equal; rewrite !map_map; apply map_ext; intros r; reflexivity.
Qed.

Lemma add_residual_bin_spec :
  forall U K P,
    Forall (fun r => List.length (snd r) = (5 + K)%nat)
           (rows (@bins_frame F K P)) ->
    add_residual_bin (bim_frame U) (bins_frame K P) = Ok (completed K U P).
Proof.
  intros U K P Hrect; unfold add_residual_bin, completed.
  replace (shape0 (@bins_frame F K P)) with (List.length P)
    by (unfold shape0, bins_frame; simpl; rewrite length_map; reflexivity).
  replace (shape0 (bim_frame U)) with (List.length U)
    by (unfold shape0, bim_frame; simpl; rewrite length_map; reflexivity).
  destruct (List.length P <? List.length U)%nat; [|reflexivity].
  rewrite index_bim_frame, index_bins_frame, mask_select_isin.
  fold (unlabelled U P).
  unfold loc.
  replace (col_indices SNP_COLUMNS (columns (bim_frame U)))
    with (@Ok (list nat) [0; 1; 3; 4; 5]%nat) by reflexivity.
  cbn [bind].
  rewrite loc_rows_found.
  2:{ intros k Hk; apply in_map_iff in Hk; destruct Hk as [l [<- Hl]].
      fold (index (bim_frame U)); rewrite index_bim_frame.
      apply in_map; apply filter_In in Hl; tauto. }
  cbn [bind].
  replace (columns (@bins_frame F K P)) with (SNP_COLUMNS ++ bin_names K)
    by reflexivity.
  rewrite fold_left_app, overwrite_identity.
  rewrite fold_setitem_new.
  2:{ apply bin_names_NoDup. }
  2:{ intros n Hn; cbn [columns]; apply mem_false.
      pose proof (bin_names_not_snp K) as H; rewrite forallb_forall in H.
      specialize (H n Hn); apply negb_true_iff in H; exact H. }
  cbn [columns rows].
  unfold shape1; cbn [columns].
  rewrite length_app, bin_names_length.
  replace (Z.of_nat (List.length SNP_COLUMNS + K)
           - Z.of_nat (List.length SNP_COLUMNS) + 1)%Z
    with (Z.of_nat K + 1)%Z by lia.
  rewrite (setitem_new (bins_frame K P)) by (apply residual_name_new).
  rewrite setitem_new by (apply residual_name_new).
  cbn [columns rows].
  replace (columns (@bins_frame F K P)) with (SNP_COLUMNS ++ bin_names K)
    by reflexivity.
  rewrite pd_concat_same.
  - rewrite bin_names_S, app_assoc; f_equal.
    unfold residual_rows; rewrite !map_map; reflexivity.
  - rewrite <- app_assoc, <- bin_names_S; apply bin_columns_NoDup.
  - apply Forall_forall; intros r Hr; apply in_map_iff in Hr.
    destruct Hr as [r0 [<- Hr0]]; cbn [snd].
    rewrite Forall_forall in Hrect; specialize (Hrect r0 Hr0).
    rewrite !length_app, Hrect, bin_names_length; reflexivity.
  - apply Forall_forall; intros r Hr.
    rewrite map_map in Hr; apply in_map_iff in Hr.
    destruct Hr as [r0 [<- Hr0]]; cbn [fst snd].
    apply in_map_iff in Hr0.
    destruct Hr0 as [r1 [<- Hr1]]; cbn [fst snd].
    rewrite !length_app, !repeat_length, bin_names_length; reflexivity.
Qed.

End ResidualBin.

(** ** Bin sizes *)

Lemma list_sum_map_add :
  forall (A : Type) (f g : A -> nat) (l : list A),
    list_sum (map (fun x => f x + g x)%nat l) =
    (list_sum (map f l) + list_sum (map g l))%nat.
Proof. induction l as [|x l IH]; simpl; [reflexivity | rewrite IH; lia]. Qed.

Lemma list_sum_map_zero :
  forall (A : Type) (l : list A), list_sum (map (fun _ => 0%nat) l) = 0%nat.
Proof. induction l as [|x l IH]; simpl; [reflexivity | exact IH]. Qed.

Lemma paired_columns :
  forall (I X Y : Type) (idx : list I) (bin : I -> X) (size : I -> Y),
    map (fun i => (bin i, size i)) idx = combine (map bin idx) (map size idx).
Proof.
  intros I X Y idx bin size; induction idx as [|i idx IH]; simpl;
    [reflexivity | rewrite IH; reflexivity].
Qed.

Lemma mask_select_all :
  forall (A : Type) (xs : list A) (mask : list bool),
    List.length xs = List.length mask -> forallb (fun b => b) mask = true ->
    mask_select xs mask = xs.
Proof.
  induction xs as [|x xs IH]; intros [|b mask] Hl Hm; simpl in *;
    try reflexivity; try discriminate.
  apply andb_true_iff in Hm; destruct Hm as [-> Hm].
  rewrite IH by (auto; lia); reflexivity.
Qed.

Section BinSizeFacts.

Context {F : Type}.

Implicit Types (df : DataFrame F) (r : row F) (rs : list (row F)).

Lemma valid_columns :
  forall df, valid_matrix df = true ->
    columns df = SNP_COLUMNS ++ skipn 5 (columns df) /\
    forallb not_snp (skipn 5 (columns df)) = true.
Proof.
  intros [cols rs] H; unfold valid_matrix, shape1 in H; cbn [columns rows] in H.
  repeat (apply andb_true_iff in H; destruct H as [H ?]).
  split; [|assumption].
  cbn [columns].
  destruct cols as [|c1 [|c2 [|c3 [|c4 [|c5 rest]]]]];
    try discriminate.
  cbn in H.
  repeat (apply andb_true_iff in H; destruct H as [?E H]).
  apply String.eqb_eq in E, E0, E1, E2, E3; subst.
  reflexivity.
Qed.

Lemma valid_rows :
  forall df r, valid_matrix df = true -> In r (rows df) ->
    List.length (snd r) = shape1 df /\ one_hot df r = true.
Proof.
  intros df r H Hr; unfold valid_matrix in H.
  apply andb_true_iff in H; destruct H as [_ H].
  rewrite forallb_forall in H; specialize (H r Hr).
  apply andb_true_iff in H; destruct H as [Hl Ho].
  apply Nat.eqb_eq in Hl; split; assumption.
Qed.

Lemma bin_columns_skip :
  forall df, valid_matrix df = true -> bin_columns df = skipn 5 (columns df).
Proof.
  intros df H; destruct (valid_columns df H) as [E Hn].
  unfold bin_columns; rewrite E at 1.
  rewrite filter_app.
  replace (filter (fun c => negb (mem c SNP_COLUMNS)) SNP_COLUMNS)
    with (@nil string) by reflexivity.
  simpl; apply forallb_filter_id; exact Hn.
Qed.

Lemma bin_columns_length :
  forall df, valid_matrix df = true ->
    shape1 df = (5 + List.length (bin_columns df))%nat.
Proof.
  intros df H; rewrite bin_columns_skip by exact H.
  destruct (valid_columns df H) as [E _]; unfold shape1.
  rewrite E at 1; rewrite length_app; reflexivity.
Qed.

Lemma bin_values_skip :
  forall df r, valid_matrix df = true -> In r (rows df) ->
    bin_values df r = skipn 5 (snd r).
Proof.
  intros df r H Hr.
  destruct (valid_rows df r H Hr) as [Hl _].
  destruct (valid_columns df H) as [E Hn].
  unfold bin_values; rewrite E.
  unfold shape1 in Hl; rewrite E, length_app in Hl.
  destruct (snd r) as [|x1 [|x2 [|x3 [|x4 [|x5 bs]]]]];
    simpl in Hl; try discriminate Hl.
  cbn [app map SNP_COLUMNS]; cbn.
  apply mask_select_all.
  - rewrite length_map; lia.
  - rewrite forallb_forall; intros b Hb; apply in_map_iff in Hb.
    destruct Hb as [c [<- Hc]].
    rewrite forallb_forall in Hn; exact (Hn c Hc).
Qed.

Lemma bin_values_length :
  forall df r, valid_matrix df = true -> In r (rows df) ->
    List.length (bin_values df r) = List.length (bin_columns df).
Proof.
  intros df r H Hr; rewrite bin_values_skip by assumption.
  destruct (valid_rows df r H Hr) as [Hl _].
  rewrite length_skipn, Hl, (bin_columns_length df H); lia.
Qed.

Lemma drop_identity :
  forall df, valid_matrix df = true ->
    drop df SNP_COLUMNS =
    Ok (mkDF (bin_columns df) (map (fun r => (fst r, bin_values df r)) (rows df))).
Proof.
  intros df H; unfold drop.
  destruct (valid_columns df H) as [E _].
  replace (col_indices SNP_COLUMNS (columns df))
    with (@Ok (list nat) [0; 1; 2; 3; 4]%nat) by (rewrite E; reflexivity).
  cbn [bind]; rewrite mask_select_map; reflexivity.
Qed.

Lemma sum_cells_boolean :
  forall cs : list (cell F),
    Forall (fun c => is_true_cell c = true \/ is_false_cell c = true \/ c = CNaN) cs ->
    sum_cells cs = Ok (Z.of_nat (List.length (filter is_true_cell cs))).
Proof.
  induction cs as [|c cs IH]; intros H; [reflexivity|].
  inversion H as [|? ? Hc Hcs]; subst.
  cbn [sum_cells]; rewrite (IH Hcs).
  destruct Hc as [Hc | [Hc | ->]].
  - destruct c as [| | |[|]|]; try discriminate Hc.
    cbn [cell_count bind is_true_cell filter List.length Z.b2z].
    apply f_equal; lia.
  - destruct c as [| | |[|]|]; try discriminate Hc.
    cbn [cell_count bind is_true_cell filter List.length Z.b2z].
    apply f_equal; lia.
  - cbn [cell_count bind is_true_cell filter List.length Z.b2z].
    apply f_equal; lia.
Qed.

Lemma map_result_ok :
  forall (A B : Type) (f : A -> result B) (g : A -> B) (l : list A),
    (forall a, In a l -> f a = Ok (g a)) -> map_result f l = Ok (map g l).
Proof.
  induction l as [|a l IH]; intros H; [reflexivity|].
  cbn [map_result]; rewrite (H a) by (left; reflexivity); cbn [bind].
  rewrite IH by (intros b Hb; apply H; right; exact Hb); reflexivity.
Qed.

Lemma nth_boolean :
  forall (cs : list (cell F)) j,
    forallb (fun c => is_true_cell c || is_false_cell c) cs = true ->
    let c := nth j cs CNaN in
    is_true_cell c = true \/ is_false_cell c = true \/ c = CNaN.
Proof.
  intros cs j H; cbn zeta.
  destruct (Nat.lt_ge_cases j (List.length cs)) as [Hj|Hj].
  - rewrite forallb_forall in H.
    specialize (H (nth j cs CNaN) (nth_In _ _ Hj)).
    apply orb_true_iff in H; tauto.
  - right; right; apply nth_overflow; exact Hj.
Qed.

Lemma sum_axis0_counts :
  forall df, valid_matrix df = true ->
    sum_axis0 (mkDF (bin_columns df)
                    (map (fun r => (fst r, bin_values df r)) (rows df))) =
    Ok (map (fun j => Z.of_nat (bin_count df j))
            (seq 0 (List.length (bin_columns df)))).
Proof.
  intros df H; unfold sum_axis0, shape1; cbn [columns rows].
  apply map_result_ok; intros j _.
  rewrite map_map; cbn [snd].
  rewrite sum_cells_boolean.
  - unfold bin_count; do 2 f_equal.
    induction (rows df) as [|r rs IH]; [reflexivity|].
    cbn [map filter]; destruct (is_true_cell (nth j (bin_values df r) CNaN));
      cbn [List.length]; rewrite IH; reflexivity.
  - apply Forall_forall; intros c Hc; apply in_map_iff in Hc.
    destruct Hc as [r [<- Hr]]; apply nth_boolean.
    destruct (valid_rows df r H Hr) as [_ Ho].
    unfold one_hot in Ho; apply andb_true_iff in Ho; tauto.
Qed.

Lemma bin_sizes_valid :
  forall df, valid_matrix df = true -> bin_sizes df = Ok (size_table df).
Proof.
  intros df H; unfold bin_sizes.
  rewrite (drop_identity df H); cbn [bind].
  rewrite (sum_axis0_counts df H); cbn [bind].
  rewrite (bin_columns_length df H).
  replace (Z.of_nat (5 + List.length (bin_columns df))
           - Z.of_nat (List.length SNP_COLUMNS) + 1)%Z
    with (Z.of_nat (List.length (bin_columns df)) + 1)%Z
    by (cbn [List.length SNP_COLUMNS]; lia).
  rewrite length_map, length_seq, arange_length.
  replace (Z.to_nat (Z.of_nat (List.length (bin_columns df)) + 1 - 1))
    with (List.length (bin_columns df)) by lia.
  rewrite Nat.eqb_refl; cbn [negb].
  unfold arange.
  replace (Z.to_nat (Z.of_nat (List.length (bin_columns df)) + 1 - 1))
    with (List.length (bin_columns df)) by lia.
  rewrite <- paired_columns; unfold size_table; f_equal.
  apply map_ext; intros i; f_equal; lia.
Qed.

Lemma truth_count :
  forall (bs : list (cell F)) n, List.length bs = n ->
    list_sum (map (fun j => truth (nth j bs CNaN)) (seq 0 n)) =
    List.length (filter is_true_cell bs).
Proof.
  induction bs as [|b bs IH]; intros n Hn; simpl in Hn; subst n.
  - reflexivity.
  - rewrite <- cons_seq, <- seq_shift, map_cons, map_map; cbn [nth list_sum].
    unfold list_sum in *; cbn [fold_right].
    rewrite (IH _ eq_refl); unfold truth; cbn [filter].
    destruct (is_true_cell b); reflexivity.
Qed.

Lemma bin_counts_total :
  forall df, valid_matrix df = true ->
    list_sum (map (bin_count df) (seq 0 (List.length (bin_columns df)))) =
    shape0 df.
Proof.
  intros df H; unfold bin_count, shape0.
  assert (G : forall rs, incl rs (rows df) ->
    list_sum (map (fun i => List.length
                     (filter (fun r => is_true_cell (nth i (bin_values df r) CNaN)) rs))
                  (seq 0 (List.length (bin_columns df)))) = List.length rs).
  { induction rs as [|r rs IH]; intros Hs.
    - cbn [filter List.length]; apply list_sum_map_zero.
    - assert (Hr : In r (rows df)) by (apply Hs; left; reflexivity).
      assert (Hrs : incl rs (rows df)) by (intros x Hx; apply Hs; right; exact Hx).
      rewrite (map_ext _ (fun i =>
                 truth (nth i (bin_values df r) CNaN) +
                 List.length (filter (fun r0 => is_true_cell
                                         (nth i (bin_values df r0) CNaN)) rs))%nat).
      2:{ intros i; cbn [filter]; unfold truth.
          destruct (is_true_cell (nth i (bin_values df r) CNaN)); reflexivity. }
      rewrite list_sum_map_add, (IH Hrs).
      rewrite (truth_count _ _ (bin_values_length df r H Hr)).
      destruct (valid_rows df r H Hr) as [_ Ho].
      unfold one_hot in Ho; apply andb_true_iff in Ho; destruct Ho as [Ho _].
      apply Nat.eqb_eq in Ho; rewrite Ho; reflexivity. }
  apply G; intros x Hx; exact Hx.
Qed.

End BinSizeFacts.

(** ** The completed partition *)

Section PartitionFacts.

Context {F : Type}.

Implicit Types (U : list (bim_line F)) (P : list snp_row).
Implicit Types (df : DataFrame F) (r : row F).

Lemma true_cells_count :
  forall bs : list bool,
    List.length (filter (@is_true_cell F) (map CBool bs)) = np_sum_bool bs.
Proof.
  induction bs as [|[|] bs IH]; [reflexivity | |]; cbn in *; rewrite IH;
    reflexivity.
Qed.

Lemma boolean_cells :
  forall bs : list bool,
    forallb (fun c : cell F => is_true_cell c || is_false_cell c)
            (map CBool bs) = true.
Proof. induction bs as [|[|] bs IH]; [reflexivity | |]; cbn; exact IH. Qed.

Lemma valid_matrix_intro :
  forall bcols (rs : list (row F)),
    forallb not_snp bcols = true ->
    (forall r, In r rs ->
       exists ids bs, snd r = ids ++ map CBool bs /\
                      List.length ids = 5%nat /\
                      List.length bs = List.length bcols /\
                      np_sum_bool bs = 1%nat) ->
    valid_matrix (mkDF (SNP_COLUMNS ++ bcols) rs) = true.
Proof.
  intros bcols rs Hb Hr; unfold valid_matrix, shape1; cbn [columns rows].
  replace (firstn 5 (SNP_COLUMNS ++ bcols)) with SNP_COLUMNS by reflexivity.
  replace (skipn 5 (SNP_COLUMNS ++ bcols)) with bcols by reflexivity.
  rewrite length_app.
  replace (forallb (fun p => String.eqb (fst p) (snd p))
                   (combine SNP_COLUMNS SNP_COLUMNS)) with true by reflexivity.
  fold not_snp; rewrite Hb.
  replace (5 <=? List.length SNP_COLUMNS + List.length bcols)%nat with true
    by reflexivity.
  cbn [andb]; apply forallb_forall; intros r Hin.
  destruct (Hr r Hin) as [ids [bs [E [Hi [Hl Hs]]]]].
  rewrite E, !length_app, length_map, Hi, Hl, Nat.eqb_refl; cbn [andb].
  unfold one_hot, bin_values; cbn [columns]; rewrite E.
  destruct ids as [|x1 [|x2 [|x3 [|x4 [|x5 [|x6 ids]]]]]];
    try discriminate Hi.
  replace (mask_select ([x1; x2; x3; x4; x5] ++ map CBool bs)
             (map (fun c => negb (mem c SNP_COLUMNS)) (SNP_COLUMNS ++ bcols)))
    with (mask_select (map (@CBool F) bs) (map not_snp bcols)) by reflexivity.
  rewrite mask_select_all.
  - rewrite true_cells_count, Hs, boolean_cells; reflexivity.
  - rewrite !length_map; exact Hl.
  - rewrite forallb_forall; intros b Hb'; apply in_map_iff in Hb'.
    destruct Hb' as [c [<- Hc]].
    rewrite forallb_forall in Hb; exact (Hb c Hc).
Qed.

Lemma labelled_row :
  forall K P x, labelled K P = true -> In x P ->
    List.length (snp_bins x) = K /\ np_sum_bool (snp_bins x) = 1%nat.
Proof.
  intros K P x H Hx; unfold labelled in H; rewrite forallb_forall in H.
  specialize (H x Hx); apply andb_true_iff in H; destruct H as [A B].
  apply Nat.eqb_eq in A, B; split; assumption.
Qed.

Lemma labelled_rectangular :
  forall K P, labelled K P = true ->
    Forall (fun r => List.length (snd r) = (5 + K)%nat)
           (rows (@bins_frame F K P)).
Proof.
  intros K P H; apply Forall_forall; intros r Hr.
  unfold bins_frame in Hr; cbn [rows] in Hr; apply in_map_iff in Hr.
  destruct Hr as [x [<- Hx]]; cbn [snd].
  destruct (labelled_row K P x H Hx) as [Hl _].
  rewrite length_app, length_map, Hl; reflexivity.
Qed.

Lemma np_sum_bool_app :
  forall a b, np_sum_bool (a ++ b) = (np_sum_bool a + np_sum_bool b)%nat.
Proof. intros a b; unfold np_sum_bool; apply count_occ_app. Qed.

Lemma np_sum_bool_repeat_false :
  forall n, np_sum_bool (repeat false n) = 0%nat.
Proof. induction n as [|n IH]; [reflexivity | exact IH]. Qed.

Lemma map_CBool_repeat :
  forall (b : bool) n, map (@CBool F) (repeat b n) = repeat (CBool b) n.
Proof. induction n as [|n IH]; [reflexivity | cbn; rewrite IH; reflexivity]. Qed.

(** Whatever the universe, the completed frame is a valid one-hot
    matrix. *)
Lemma completed_valid :
  forall K U P, labelled K P = true -> valid_matrix (completed K U P) = true.
Proof.
  intros K U P H; unfold completed.
  destruct (List.length P <? List.length U)%nat.
  - apply valid_matrix_intro; [apply bin_names_not_snp|].
    intros r Hr; apply in_app_iff in Hr; destruct Hr as [Hr|Hr].
    + apply in_map_iff in Hr; destruct Hr as [r0 [<- Hr0]].
      unfold bins_frame in Hr0; cbn [rows] in Hr0; apply in_map_iff in Hr0.
      destruct Hr0 as [x [<- Hx]]; cbn [fst snd].
      destruct (labelled_row K P x H Hx) as [Hl Hs].
      exists [CInt (snp_CHR x); CStr (snp_SNP x); CInt (snp_BP x);
              CStr (snp_A1 x); CStr (snp_A2 x)], (snp_bins x ++ [false]).
      rewrite map_app, app_assoc, length_app, bin_names_length,
        np_sum_bool_app, Hl, Hs.
      split; [reflexivity|]; split; [reflexivity|].
      split; [simpl; lia | reflexivity].
    + unfold residual_rows in Hr; apply in_map_iff in Hr.
      destruct Hr as [r0 [<- _]]; cbn [snd].
      exists (repeat (CBool false) 5), (repeat false K ++ [true]).
      rewrite map_app, map_CBool_repeat, length_app, !repeat_length,
        bin_names_length, np_sum_bool_app, np_sum_bool_repeat_false.
      split; [reflexivity|]; split; [reflexivity|].
      split; [simpl; lia | reflexivity].
  - apply valid_matrix_intro; [apply bin_names_not_snp|].
    intros r Hr; cbn [rows bins_frame] in Hr; apply in_map_iff in Hr.
    destruct Hr as [x [<- Hx]]; cbn [snd].
    destruct (labelled_row K P x H Hx) as [Hl Hs].
    exists [CInt (snp_CHR x); CStr (snp_SNP x); CInt (snp_BP x);
            CStr (snp_A1 x); CStr (snp_A2 x)], (snp_bins x).
    rewrite bin_names_length; repeat split; assumption.
Qed.

Variable save_bins_to_disk : DataFrame F -> files F -> files F.

Lemma save_bin_sizes_valid :
  forall df prefix fs, valid_matrix df = true ->
    save_bin_sizes df prefix fs =
    (Ok tt, ((prefix ++ ".binsize")%string, binsize_csv (size_table df)) :: fs).
Proof.
  intros df prefix fs H; unfold save_bin_sizes, io_bind, io_lift.
  rewrite (bin_sizes_valid df H); reflexivity.
Qed.

(** The run of [polyloc_partitions] on posterior keys that all occur in
    the universe. *)
Lemma polyloc_partitions_run :
  forall bim K P prefix fs,
    labelled K P = true ->
    incl (posterior_keys P) (universe_keys bim) ->
    polyloc_partitions save_bins_to_disk bim K P prefix fs =
    (Ok (completed K (universe bim) P),
     ((prefix ++ ".binsize")%string,
      binsize_csv (size_table (completed K (universe bim) P)))
     :: save_bins_to_disk (completed K (universe bim) P) fs).
Proof.
  intros bim K P prefix fs HL Hin; unfold polyloc_partitions.
  fold (universe bim).
  rewrite index_bins_frame, index_bim_frame.
  fold (universe_keys bim).
  rewrite (proj2 (np_any_isin _ _) Hin).
  unfold io_bind at 1, io_lift at 1.
  rewrite (add_residual_bin_spec _ _ _ (labelled_rectangular K P HL)).
  unfold io_bind, io_ret.
  rewrite save_bin_sizes_valid by (apply completed_valid; exact HL).
  reflexivity.
Qed.

Lemma polyloc_partitions_raise :
  forall bim K P prefix fs k,
    In k (posterior_keys P) -> ~ In k (universe_keys bim) ->
    polyloc_partitions save_bins_to_disk bim K P prefix fs =
    (Raise (ValueError msg_not_in_plink), fs).
Proof.
  intros bim K P prefix fs k Hk Hn; unfold polyloc_partitions.
  fold (universe bim).
  rewrite index_bins_frame, index_bim_frame.
  fold (universe_keys bim).
  rewrite (np_any_isin_true _ _ k Hk Hn); reflexivity.
Qed.

End PartitionFacts.

(** ** Claims on polyloc_partitions *)

Lemma nodupb_NoDup : forall l, nodupb l = true -> NoDup l.
Proof.
  induction l as [|x l IH]; intros H; [constructor|].
  cbn in H; apply andb_true_iff in H; destruct H as [Hx Hl].
  constructor; [|exact (IH Hl)].
  apply mem_false, negb_true_iff; exact Hx.
Qed.

Lemma NoDup_nodupb : forall l, NoDup l -> nodupb l = true.
Proof.
  induction l as [|x l IH]; intros H; [reflexivity|].
  inversion H as [|? ? Hx Hl]; subst; cbn.
  rewrite (IH Hl), (proj2 (mem_false x l) Hx); reflexivity.
Qed.

Lemma inclb_incl :
  forall xs ys, np_any (invert (isin xs ys)) = false -> incl xs ys.
Proof. intros xs ys; apply np_any_isin. Qed.

Section Claims.

Context {F : Type}.

Variable save_bins_to_disk : DataFrame F -> files F -> files F.

Implicit Types (bim : Z -> list (bim_line F)) (P : list snp_row).

Lemma universe_keys_length :
  forall bim, List.length (universe_keys bim) = List.length (universe bim).
Proof. intros bim; unfold universe_keys; apply length_map. Qed.

Lemma posterior_keys_length :
  forall P, List.length (posterior_keys P) = List.length P.
Proof. intros P; unfold posterior_keys; apply length_map. Qed.

Lemma index_completed :
  forall K (U : list (bim_line F)) P,
    index (completed K U P) =
    if (List.length P <? List.length U)%nat
    then posterior_keys P ++ map fst (residual_rows K U P)
    else posterior_keys P.
Proof.
  intros K U P; unfold completed.
  destruct (List.length P <? List.length U)%nat.
  - unfold index; cbn [rows]; rewrite map_app; f_equal.
    rewrite map_map, <- (@index_bins_frame F K P); unfold index.
    apply map_ext; reflexivity.
  - apply index_bins_frame.
Qed.

Lemma residual_rows_keys :
  forall K (U : list (bim_line F)) P k,
    In k (map fst (residual_rows K U P)) <->
    In k (map bim_key U) /\ ~ In k (posterior_keys P).
Proof.
  intros K U P k; unfold residual_rows; rewrite map_map; cbn [fst].
  split.
  - intros H; apply in_map_iff in H; destruct H as [r [<- Hr]].
    apply located_label in Hr; destruct Hr as [Hl _].
    apply in_map_iff in Hl; destruct Hl as [l [E Hl]].
    unfold unlabelled in Hl; apply filter_In in Hl; destruct Hl as [Hl Hm].
    rewrite <- E; split; [apply in_map; exact Hl|].
    apply mem_false, negb_true_iff; exact Hm.
  - intros [Hu Hp].
    apply located_covers.
    + apply in_map_iff in Hu; destruct Hu as [l [<- Hl]].
      apply in_map, filter_In; split; [exact Hl|].
      apply negb_true_iff, mem_false; exact Hp.
    + fold (index (bim_frame U)); rewrite index_bim_frame; exact Hu.
Qed.

(** The keys of the completed frame are the keys of the universe, as
    soon as the posterior keys are distinct and occur in the universe. *)
Lemma completed_keys :
  forall K bim P,
    NoDup (posterior_keys P) ->
    incl (posterior_keys P) (universe_keys bim) ->
    forall k, In k (index (completed K (universe bim) P)) <->
              In k (universe_keys bim).
Proof.
  intros K bim P Hnd Hin k; rewrite index_completed.
  destruct (List.length P <? List.length (universe bim))%nat eqn:E.
  - rewrite in_app_iff, residual_rows_keys; fold (universe_keys bim).
    split; [intros [H|[H _]]; auto|].
    intros H; destruct (in_dec string_dec k (posterior_keys P)); auto.
  - apply Nat.ltb_ge in E; split; [apply Hin|].
    apply (NoDup_length_incl Hnd); [|exact Hin].
    rewrite universe_keys_length, posterior_keys_length; exact E.
Qed.

Lemma one_hot_rows :
  forall df : DataFrame F, valid_matrix df = true ->
    forallb (one_hot df) (rows df) = true.
Proof.
  intros df H; apply forallb_forall; intros r Hr.
  exact (proj2 (valid_rows df r H Hr)).
Qed.

(** C1, as the code has it. Completeness of the bin partition. For
    every genotype universe (the concatenated [.bim] files) and every
    posterior-labelled set of variants whose keys are pairwise distinct
    and all occur in the universe, [polyloc_partitions] completes, every
    row of the matrix it leaves has exactly one true bin cell, and the
    keys of its rows are exactly the keys of the universe. *)
Theorem polyloc_partitions_complete :
  forall bim K P prefix fs,
    labelled K P = true ->
    NoDup (posterior_keys P) ->
    incl (posterior_keys P) (universe_keys bim) ->
    exists df fs',
      polyloc_partitions save_bins_to_disk bim K P prefix fs = (Ok df, fs') /\
      forallb (one_hot df) (rows df) = true /\
      (forall k, In k (index df) <-> In k (universe_keys bim)).
Proof.
  intros bim K P prefix fs HL Hnd Hin.
  eexists; eexists; split;
    [apply polyloc_partitions_run; assumption|].
  split.
  - apply one_hot_rows, completed_valid; exact HL.
  - apply completed_keys; assumption.
Qed.


Lemma filter_map_comm :
  forall (A B : Type) (p : B -> bool) (f : A -> B) (l : list A),
    filter p (map f l) = map f (filter (fun x => p (f x)) l).
Proof.
  induction l as [|x l IH]; [reflexivity|]; cbn.
  destruct (p (f x)); cbn; rewrite IH; reflexivity.
Qed.

(** With distinct universe keys, one row is synthesized per variant the
    posterior file lacks, in the order of the universe. *)
Lemma residual_rows_distinct :
  forall K (U : list (bim_line F)) P, NoDup (map bim_key U) ->
    residual_rows K U P =
    map (fun l => (bim_key l, repeat (CBool false) (5 + K) ++ [CBool true]))
        (unlabelled U P).
Proof.
  intros K U P Hnd; unfold residual_rows, unlabelled.
  rewrite <- (filter_map_comm _ _
                (fun k => negb (mem k (posterior_keys P))) bim_key U).
  rewrite <- index_bim_frame; unfold index.
  rewrite located_filter
    by (fold (index (bim_frame U)); rewrite index_bim_frame; exact Hnd).
  unfold bim_frame; cbn [rows].
  rewrite filter_map_comm, map_map; reflexivity.
Qed.

Lemma unlabelled_nil :
  forall (U : list (bim_line F)) P,
    incl (map bim_key U) (posterior_keys P) -> unlabelled U P = [].
Proof.
  intros U P H; apply filter_none; intros l Hl.
  apply negb_false_iff, mem_In, H, in_map; exact Hl.
Qed.

Lemma missing_nonempty_shape :
  forall bim P,
    NoDup (posterior_keys P) ->
    incl (posterior_keys P) (universe_keys bim) ->
    missing bim P <> [] ->
    (List.length P <? List.length (universe bim))%nat = true.
Proof.
  intros bim P Hnd Hin Hm; apply Nat.ltb_lt.
  destruct (Nat.lt_ge_cases (List.length P) (List.length (universe bim)))
    as [H|H]; [exact H|].
  exfalso; apply Hm, unlabelled_nil.
  apply (NoDup_length_incl Hnd); [|exact Hin].
  fold (universe_keys bim).
  rewrite universe_keys_length, posterior_keys_length; exact H.
Qed.

Lemma covered_shape :
  forall bim P,
    NoDup (universe_keys bim) ->
    incl (universe_keys bim) (posterior_keys P) ->
    (List.length P <? List.length (universe bim))%nat = false.
Proof.
  intros bim P Hnd Hin; apply Nat.ltb_ge.
  rewrite <- universe_keys_length, <- posterior_keys_length.
  apply NoDup_incl_length; assumption.
Qed.

(** C2, as the code has it. Residual-bin construction. For a universe
    and a posterior-labelled set, each with pairwise distinct keys, such
    that keys(P) is included in keys(U): if some variant of the universe
    is missing from the posterior set, [polyloc_partitions] appends one
    new bin column, numbered K+1 and placed last, with value false in
    every existing row, and synthesizes exactly one row per missing
    variant, false in the K existing bin columns and true in the new
    one; if every universe key is a posterior key, the frame is left as
    it was, with no residual column. *)
Theorem polyloc_partitions_residual_bin :
  forall bim K P prefix fs,
    labelled K P = true ->
    NoDup (posterior_keys P) ->
    NoDup (universe_keys bim) ->
    incl (posterior_keys P) (universe_keys bim) ->
    exists df fs',
      polyloc_partitions save_bins_to_disk bim K P prefix fs = (Ok df, fs') /\
      (missing bim P <> [] ->
       exists new,
         columns df =
           columns (@bins_frame F K P) ++ [bin_colname (Z.of_nat K + 1)] /\
         rows df =
           map (fun r => (fst r, snd r ++ [CBool false]))
               (rows (bins_frame K P)) ++ new /\
         List.length new = List.length (missing bim P) /\
         map fst new = map bim_key (missing bim P) /\
         Forall (fun r => bin_values df r =
                          repeat (CBool false) K ++ [CBool true]) new) /\
      (incl (universe_keys bim) (posterior_keys P) -> df = bins_frame K P).
Proof.
  intros bim K P prefix fs HL HndP HndU Hin.
  eexists; eexists; split;
    [apply polyloc_partitions_run; assumption|].
  pose proof (completed_valid K (universe bim) P HL) as Hv.
  split.
  - intros Hm.
    pose proof (missing_nonempty_shape bim P HndP Hin Hm) as Hs.
    revert Hv; unfold completed; rewrite Hs; intros Hv.
    exists (residual_rows K (universe bim) P); cbn [columns rows].
    split; [rewrite bin_names_S, app_assoc; reflexivity|].
    split; [reflexivity|].
    rewrite (residual_rows_distinct K (universe bim) P HndU) in *.
    fold (missing bim P) in *.
    split; [apply length_map|].
    split; [rewrite map_map; reflexivity|].
    apply Forall_forall; intros r Hr.
    rewrite bin_values_skip; [| exact Hv |].
    + apply in_map_iff in Hr; destruct Hr as [l [<- _]]; reflexivity.
    + cbn [rows]; apply in_or_app; right; exact Hr.
  - intros Hc; unfold completed.
    rewrite (covered_shape bim P HndU Hc); reflexivity.
Qed.

(** C3. Integrity rejection. When the posterior-labelled set contains a
    key that the genotype universe lacks, [polyloc_partitions] fails
    with the [ValueError] of line 149 (the code's data-integrity error)
    and the files are as they were: neither the bin files nor the
    bin-size file is written. *)
Theorem polyloc_partitions_integrity_rejection :
  forall bim K P prefix fs,
    (exists k, In k (posterior_keys P) /\ ~ In k (universe_keys bim)) ->
    polyloc_partitions save_bins_to_disk bim K P prefix fs =
    (Raise (ValueError msg_not_in_plink), fs).
Proof.
  intros bim K P prefix fs [k [Hk Hn]].
  apply (polyloc_partitions_raise save_bins_to_disk bim K P prefix fs k);
    assumption.
Qed.

(** C5, as the code has it. [polyloc_partitions] does not look for
    repeated variant keys: on sources that repeat a key, in the
    posterior file or in the universe, it completes whenever every
    posterior key occurs in the universe, and the only failure it has is
    the integrity rejection of a posterior key the universe lacks. *)
Theorem polyloc_partitions_ignores_duplicates :
  forall bim K P prefix fs,
    labelled K P = true ->
    ~ NoDup (posterior_keys P) \/ ~ NoDup (universe_keys bim) ->
    (incl (posterior_keys P) (universe_keys bim) ->
     exists df fs',
       polyloc_partitions save_bins_to_disk bim K P prefix fs = (Ok df, fs'))
    /\ (forall e fs',
          polyloc_partitions save_bins_to_disk bim K P prefix fs
          = (Raise e, fs') ->
          e = ValueError msg_not_in_plink /\
          exists k, In k (posterior_keys P) /\ ~ In k (universe_keys bim)).
Proof.
  intros bim K P prefix fs HL _; split.
  - intros Hin; eexists; eexists.
    apply polyloc_partitions_run; assumption.
  - intros e fs' Hr.
    destruct (np_any (invert (isin (posterior_keys P) (universe_keys bim))))
      eqn:E.
    + unfold np_any, invert, isin in E; rewrite map_map in E.
      apply existsb_exists in E; destruct E as [b [Hb ->]].
      apply in_map_iff in Hb; destruct Hb as [k [Hm Hk]].
      apply negb_true_iff, mem_false in Hm.
      rewrite (polyloc_partitions_raise save_bins_to_disk bim K P prefix fs
                 k Hk Hm) in Hr.
      injection Hr as <- _; split; [reflexivity|].
      exists k; split; assumption.
    + apply np_any_isin in E.
      rewrite (polyloc_partitions_run save_bins_to_disk bim K P prefix fs
                 HL E) in Hr.
      discriminate Hr.
Qed.

(** C8. Bin-size aggregation. For every valid one-hot bin-assignment
    matrix, the bin-size file is written tab-delimited under the header
    BIN, BIN_SIZE; it lists the bin numbers 1, 2, ... in ascending
    order, one per bin column, each with the number of rows whose cell
    in that bin column is true; and the sizes sum to the number of rows
    of the matrix. *)
Theorem bin_sizes_aggregate :
  forall (df : DataFrame F) prefix fs,
    valid_matrix df = true ->
    save_bin_sizes df prefix fs =
    (Ok tt,
     ((prefix ++ ".binsize")%string,
      mkCsv tab None ["BIN"; "BIN_SIZE"]
        (map (fun i => [CInt (Z.of_nat (S i));
                        CInt (Z.of_nat (bin_count df i))])
             (seq 0 (List.length (bin_columns df))))) :: fs)
    /\ list_sum (map (bin_count df) (seq 0 (List.length (bin_columns df))))
       = shape0 df.
Proof.
  intros df prefix fs H; split.
  - rewrite (save_bin_sizes_valid df prefix fs H).
    unfold binsize_csv, size_table; rewrite map_map; reflexivity.
  - apply bin_counts_total; exact H.
Qed.


End Claims.

(** ** compute_polyloc *)

Lemma map_snd_combine_eq :
  forall (A B : Type) (l : list A) (l' : list B),
    List.length l = List.length l' -> map snd (combine l l') = l'.
Proof.
  induction l as [|a l IH]; intros [|b l'] H; simpl in *;
    try reflexivity; try discriminate.
  rewrite IH by lia; reflexivity.
Qed.


Section LocalizationFacts.

Variable N : numeric.

Local Abbreviation F := (num N).

Lemma read_binsize :
  forall path (fs : files F) table,
    read_file path fs = Some (binsize_csv table) ->
    read_table N path fs = (Ok (binsize_frame N table), fs).
Proof.
  intros path fs table H; unfold read_table; rewrite H.
  unfold binsize_frame, binsize_csv; cbn [header records].
  rewrite length_map; reflexivity.
Qed.

Lemma binsize_frame_rows :
  forall table,
    map snd (rows (binsize_frame N table)) =
    map (fun p => [CInt (fst p); CInt (snd p)]) table.
Proof.
  intros table; unfold binsize_frame; cbn [rows].
  apply map_snd_combine_eq.
  rewrite !length_map, arange_length; lia.
Qed.

Lemma getitem_bin_size :
  forall table,
    getitem N (binsize_frame N table) "BIN_SIZE" =
    Ok (map (fun p => CInt (snd p)) table).
Proof.
  intros table; unfold getitem.
  replace (col_index "BIN_SIZE" (columns (binsize_frame N table)))
    with (Some 1%nat) by reflexivity.
  f_equal.
  rewrite <- (map_map snd (fun cells => nth 1 cells CNaN)).
  rewrite binsize_frame_rows, map_map; reflexivity.
Qed.

Lemma cell_num_sizes :
  forall table,
    map_result (cell_num N) (map (fun p => CInt (snd p)) table) =
    Ok (sizes_of N table).
Proof.
  induction table as [|p table IH]; [reflexivity|].
  cbn [map map_result cell_num bind]; rewrite IH; reflexivity.
Qed.

(** [compute_polyloc] on the bin-size file that [polyloc_partitions]
    wrote: the run is decided by [localize]. *)
Lemma compute_polyloc_run :
  forall hsqhat prefix (fs : files F) table,
    read_file (prefix ++ ".binsize")%string fs = Some (binsize_csv table) ->
    compute_polyloc N hsqhat prefix fs =
    match localize N (taus_of N hsqhat) (sizes_of N table) with
    | Ok cols =>
        (Ok (polyloc_frame N table (fst cols) (snd cols)),
         ((prefix ++ ".polyloc")%string,
          polyloc_csv N (polyloc_frame N table (fst cols) (snd cols))) :: fs)
    | Raise e => (Raise e, fs)
    end.
Proof.
  intros hsqhat prefix fs table H; unfold compute_polyloc.
  unfold io_bind at 1; rewrite (read_binsize _ _ _ H).
  unfold io_bind at 1, io_lift at 1; rewrite getitem_bin_size.
  unfold io_bind at 1, io_lift at 1; rewrite cell_num_sizes.
  unfold io_bind at 1, io_lift at 1.
  destruct (localize N (taus_of N hsqhat) (sizes_of N table)) as [cols|e];
    reflexivity.
Qed.

Lemma localize_aligned :
  forall taus sizes : list F,
    List.length taus = List.length sizes ->
    localize N taus sizes =
    Ok (map (fun c => ndiv N c (series_sum N (contributions N taus sizes)))
            (contributions N taus sizes),
        cumsum N
          (map (fun c => ndiv N c (series_sum N (contributions N taus sizes)))
               (contributions N taus sizes))).
Proof.
  intros taus sizes H; unfold localize, mul_array_series.
  rewrite H, Nat.eqb_refl; reflexivity.
Qed.



Lemma cumsum_from_length :
  forall (s : list F) acc, List.length (cumsum_from N acc s) = List.length s.
Proof.
  induction s as [|x s IH]; intros acc; [reflexivity|].
  cbn [cumsum_from]; destruct (nisnan N x); cbn [List.length];
    rewrite IH; reflexivity.
Qed.

Lemma added_columns :
  forall (t : list (Z * Z)) (ls : list string) (a b : list F),
    List.length ls = List.length t ->
    List.length a = List.length t -> List.length b = List.length t ->
    let rs : list (row F) :=
      map (fun p => (fst (fst p), snd (fst p) ++ [CFloat (snd p)]))
        (combine
           (map (fun p => (fst (fst p), snd (fst p) ++ [CFloat (snd p)]))
              (combine
                 (combine ls (map (fun p => [CInt (fst p); CInt (snd p)]) t))
                 a))
           b) in
    map (fun r => match nth 2 (snd r) CNaN with
                  | CFloat x => x
                  | _ => nnan N
                  end) rs = a /\
    map (fun r => match nth 3 (snd r) CNaN with
                  | CFloat x => x
                  | _ => nnan N
                  end) rs = b.
Proof.
  induction t as [|p t IH]; intros [|l ls] [|x a] [|y b] Hl Ha Hb;
    simpl in *; try discriminate; [split; reflexivity|].
  destruct (IH ls a b) as [E1 E2]; try lia.
  rewrite E1, E2; split; reflexivity.
Qed.

(** The two columns [compute_polyloc] adds can be read back. *)
Lemma polyloc_frame_columns :
  forall table (h2 sum_h2 : list F),
    List.length h2 = List.length table ->
    List.length sum_h2 = List.length table ->
    float_column N (polyloc_frame N table h2 sum_h2) H2 = Some h2 /\
    float_column N (polyloc_frame N table h2 sum_h2) SUM_H2 = Some sum_h2.
Proof.
  intros table h2 sum_h2 Hh Hs.
  assert (Hl : List.length (map fmt_d (arange 0 (Z.of_nat (List.length table))))
               = List.length table)
    by (rewrite length_map, arange_length; lia).
  destruct (added_columns table _ h2 sum_h2 Hl Hh Hs) as [E1 E2].
  cbn zeta in E1, E2.
  unfold float_column, polyloc_frame.
  replace (col_index H2
             (columns (set_column N (set_column N (binsize_frame N table) H2 h2)
                         SUM_H2 sum_h2)))
    with (Some 2%nat) by reflexivity.
  replace (col_index SUM_H2
             (columns (set_column N (set_column N (binsize_frame N table) H2 h2)
                         SUM_H2 sum_h2)))
    with (Some 3%nat) by reflexivity.
  split; f_equal; [exact E1 | exact E2].
Qed.

End LocalizationFacts.

(** ** IEEE division by zero *)




(** ** Claims on compute_polyloc *)

Lemma contributions_length :
  forall (N : numeric) (taus sizes : list (num N)),
    List.length taus = List.length sizes ->
    List.length (contributions N taus sizes) = List.length sizes.
Proof.
  intros N taus sizes H; unfold contributions.
  rewrite length_map, length_combine, H; apply Nat.min_id.
Qed.


Lemma sizes_of_length :
  forall (N : numeric) table, List.length (sizes_of N table) = List.length table.
Proof. intros N table; unfold sizes_of; apply length_map. Qed.

(** The run of [compute_polyloc] when coefficients and bin sizes are
    aligned: no test of the total stands between the product and the
    division. *)
Lemma compute_polyloc_aligned :
  forall (N : numeric) (hsqhat : Hsq N) prefix (fs : files (num N)) table,
    read_file (prefix ++ ".binsize")%string fs = Some (binsize_csv table) ->
    List.length (taus_of N hsqhat) = List.length table ->
    let c := contributions N (taus_of N hsqhat) (sizes_of N table) in
    let h2 := map (fun x => ndiv N x (series_sum N c)) c in
    exists df,
      compute_polyloc N hsqhat prefix fs =
      (Ok df, ((prefix ++ ".polyloc")%string, polyloc_csv N df) :: fs) /\
      float_column N df H2 = Some h2 /\
      float_column N df SUM_H2 = Some (cumsum N h2).
Proof.
  intros N hsqhat prefix fs table Hf Hl c h2.
  rewrite (compute_polyloc_run N hsqhat prefix fs table Hf).
  rewrite localize_aligned by (rewrite sizes_of_length; exact Hl).
  fold c; fold h2; cbn [fst snd].
  eexists; split; [reflexivity|].
  apply polyloc_frame_columns.
  - unfold h2, c; rewrite length_map, contributions_length;
      rewrite sizes_of_length; [reflexivity | exact Hl].
  - unfold cumsum; rewrite cumsum_from_length.
    unfold h2, c; rewrite length_map, contributions_length;
      rewrite sizes_of_length; [reflexivity | exact Hl].
Qed.



(** ** Normalization in exact arithmetic *)









(** *** The run in exact arithmetic *)









(** ** The claims at concrete inputs *)

Lemma polyloc_partitions_complete_witness :
  exists df fs',
    polyloc_partitions Scenario.no_save Scenario.bim 2 Scenario.P "out" []
    = (Ok df, fs') /\
    forallb (one_hot df) (rows df) = true /\
    (forall k, In k (index df) <-> In k (universe_keys Scenario.bim)).
Proof.
  apply (polyloc_partitions_complete
           Scenario.no_save Scenario.bim 2 Scenario.P "out" []).
  - reflexivity.
  - apply nodupb_NoDup; reflexivity.
  - apply inclb_incl; reflexivity.
Defined.

Lemma polyloc_partitions_residual_bin_witness :
  exists df fs',
    polyloc_partitions Scenario.no_save Scenario.bim 2 Scenario.P "out" []
    = (Ok df, fs') /\
    (missing Scenario.bim Scenario.P <> [] ->
     exists new,
       columns df =
         columns (@bins_frame Q 2 Scenario.P) ++ [bin_colname (Z.of_nat 2 + 1)] /\
       rows df =
         map (fun r => (fst r, snd r ++ [CBool false]))
             (rows (bins_frame 2 Scenario.P)) ++ new /\
       List.length new = List.length (missing Scenario.bim Scenario.P) /\
       map fst new = map bim_key (missing Scenario.bim Scenario.P) /\
       Forall (fun r => bin_values df r =
                        repeat (CBool false) 2 ++ [CBool true]) new) /\
    (incl (universe_keys Scenario.bim) (posterior_keys Scenario.P) ->
     df = bins_frame 2 Scenario.P).
Proof.
  apply (polyloc_partitions_residual_bin
           Scenario.no_save Scenario.bim 2 Scenario.P "out" []).
  - reflexivity.
  - apply nodupb_NoDup; reflexivity.
  - apply nodupb_NoDup; reflexivity.
  - apply inclb_incl; reflexivity.
Defined.

Lemma polyloc_partitions_integrity_rejection_witness :
  polyloc_partitions Scenario.no_save Scenario.bim 2 Scenario.P_unknown "out" []
  = (Raise (ValueError msg_not_in_plink), []).
Proof.
  apply (polyloc_partitions_integrity_rejection
           Scenario.no_save Scenario.bim 2 Scenario.P_unknown "out" []).
  exists "rs9AC"; split.
  - right; left; reflexivity.
  - apply mem_false; reflexivity.
Defined.

(** C5 fails on the code: with the key [rs1AC] twice in the posterior file
    and twice in the universe, [polyloc_partitions] raises nothing; it
    keeps both posterior rows, adds the residual bin for [rs2AC] and
    writes the bin sizes 2 and 1. *)
Lemma polyloc_partitions_accepts_duplicates :
  ~ NoDup (posterior_keys Scenario.P_dup) /\
  ~ NoDup (universe_keys Scenario.bim_dup) /\
  exists df,
    polyloc_partitions Scenario.no_save Scenario.bim_dup 1 Scenario.P_dup "out" []
    = (Ok df, [("out.binsize", binsize_csv [(1, 2); (2, 1)]%Z)]) /\
    index df = ["rs1AC"; "rs1AC"; "rs2AC"].
Proof.
  split; [intros H; apply NoDup_nodupb in H; discriminate H|].
  split; [intros H; apply NoDup_nodupb in H; discriminate H|].
  exists (completed 1 (universe Scenario.bim_dup) Scenario.P_dup).
  split; vm_compute; reflexivity.
Qed.

Lemma polyloc_partitions_ignores_duplicates_witness :
  (incl (posterior_keys Scenario.P_dup) (universe_keys Scenario.bim_dup) ->
   exists df fs',
     polyloc_partitions Scenario.no_save Scenario.bim_dup 1 Scenario.P_dup
       "out" [] = (Ok df, fs'))
  /\ (forall e fs',
        polyloc_partitions Scenario.no_save Scenario.bim_dup 1 Scenario.P_dup
          "out" [] = (Raise e, fs') ->
        e = ValueError msg_not_in_plink /\
        exists k, In k (posterior_keys Scenario.P_dup) /\
                  ~ In k (universe_keys Scenario.bim_dup)).
Proof.
  apply (polyloc_partitions_ignores_duplicates
           Scenario.no_save Scenario.bim_dup 1 Scenario.P_dup "out" []).
  - reflexivity.
  - left; intros H; apply NoDup_nodupb in H; discriminate H.
Defined.

(** C1 fails on the code: line 152 compares row counts. The posterior
    set holds two distinct variants with the same key [rs1ACG], which
    the universe has; the universe has two lines, so the counts agree, no
    residual bin is added, and the variant [rs2AC] of the universe is in
    no row of the matrix. *)
Lemma polyloc_partitions_misses_variant :
  labelled 1 Scenario.P_collide = true /\
  NoDup (map snp_identity Scenario.P_collide) /\
  incl (posterior_keys Scenario.P_collide) (universe_keys Scenario.bim_two) /\
  exists df,
    polyloc_partitions Scenario.no_save Scenario.bim_two 1 Scenario.P_collide
      "out" []
    = (Ok df, [("out.binsize", binsize_csv [(1, 2)]%Z)]) /\
    index df = ["rs1ACG"; "rs1ACG"] /\
    In "rs2AC" (universe_keys Scenario.bim_two) /\
    ~ In "rs2AC" (index df).
Proof.
  split; [reflexivity|].
  split; [repeat constructor; simpl; intuition discriminate|].
  split; [apply inclb_incl; reflexivity|].
  exists (completed 1 (universe Scenario.bim_two) Scenario.P_collide).
  split; [vm_compute; reflexivity|].
  split; [vm_compute; reflexivity|].
  split; [right; left; reflexivity|].
  apply mem_false; reflexivity.
Qed.

(** C2 fails on the code: the universe holds two distinct variants with
    the same key [rs1ACG] and the posterior set holds the first of them,
    so keys(U) equals keys(P); the universe has more lines than the
    posterior set, so a residual bin column [snpvar_bin2] is created, with
    no row in it. *)
Lemma polyloc_partitions_empty_residual_bin :
  labelled 1 Scenario.P_single = true /\
  NoDup (map bim_identity (universe Scenario.bim_collide)) /\
  incl (posterior_keys Scenario.P_single) (universe_keys Scenario.bim_collide) /\
  incl (universe_keys Scenario.bim_collide) (posterior_keys Scenario.P_single) /\
  exists df,
    polyloc_partitions Scenario.no_save Scenario.bim_collide 1 Scenario.P_single
      "out" []
    = (Ok df, [("out.binsize", binsize_csv [(1, 1); (2, 0)]%Z)]) /\
    columns df = ["CHR"; "SNP"; "BP"; "A1"; "A2"; "snpvar_bin1"; "snpvar_bin2"] /\
    index df = ["rs1ACG"].
Proof.
  split; [reflexivity|].
  split; [repeat constructor; simpl; intuition discriminate|].
  split; [apply inclb_incl; reflexivity|].
  split; [apply inclb_incl; reflexivity|].
  exists (completed 1 (universe Scenario.bim_collide) Scenario.P_single).
  split; [vm_compute; reflexivity|].
  split; vm_compute; reflexivity.
Qed.

Lemma bin_sizes_aggregate_witness :
  save_bin_sizes Scenario.matrix "out" [] =
  (Ok tt,
   [("out.binsize",
     mkCsv tab None ["BIN"; "BIN_SIZE"]
       (map (fun i => [CInt (Z.of_nat (S i));
                       CInt (Z.of_nat (bin_count Scenario.matrix i))])
            (seq 0 (List.length (bin_columns Scenario.matrix)))))])
  /\ list_sum (map (bin_count Scenario.matrix)
                   (seq 0 (List.length (bin_columns Scenario.matrix))))
     = shape0 Scenario.matrix.
Proof.
  apply (bin_sizes_aggregate Scenario.matrix "out" []).
  reflexivity.
Defined.

(** The scenario of the specification: BIN_SIZE = [2, 1, 2]. *)
Example scenario_bin_sizes :
  bin_sizes Scenario.matrix = Ok [(1, 2); (2, 1); (3, 2)]%Z.
Proof. reflexivity. Qed.


(** The rows synthesized in the scenario of the specification. *)
Example scenario_residual_rows :
  residual_rows 2 (universe Scenario.bim) Scenario.P =
  [("rs4AC", [CBool false; CBool false; CBool false; CBool false;
              CBool false; CBool false; CBool false; CBool true]);
   ("rs5AC", [CBool false; CBool false; CBool false; CBool false;
              CBool false; CBool false; CBool false; CBool true])].
Proof. reflexivity. Qed.





(** The scenario of the specification: two coefficients for three
    persisted bins are refused, by the product itself. *)
Example scenario_shape_mismatch :
  compute_polyloc Float64 Scenario.hsq_two "out"
    (Scenario.persisted _ Scenario.sizes) =
  (Raise (ValueError msg_broadcast), Scenario.persisted _ Scenario.sizes).
Proof. vm_compute; reflexivity. Qed.



(** The scenario of the specification: contributions 0.2, 0.3, 0.4 of
    total 0.9; %H2 = 2/9, 3/9, 4/9. *)
Example scenario_shares :
  exact_contributions Scenario.est 3 1 Scenario.sizes
  = [(1 # 10) / 1 * inject_Z 2; (3 # 10) / 1 * inject_Z 1;
     (2 # 10) / 1 * inject_Z 2] /\
  qsum (exact_contributions Scenario.est 3 1 Scenario.sizes) == 9 # 10 /\
  Forall2 Qeq
    (map (fun c => c / qsum (exact_contributions Scenario.est 3 1 Scenario.sizes))
         (exact_contributions Scenario.est 3 1 Scenario.sizes))
    [2 # 9; 3 # 9; 4 # 9].
Proof.
  split; [reflexivity|]; split; [reflexivity|].
  repeat constructor; reflexivity.
Qed.

(** ** check_args: acceptance, the default window *)

Lemma check_args_consistent :
  forall a, is_ok (check_args a) = consistent a.
Proof.
  intros [p l c nb sk ch cm kb sn kp ss po wl bf op].
  unfold check_args, consistent, ldscores_defaults, ld_wind_given, no_ld_wind.
  cbn [Args.compute_partitions Args.compute_ldscores Args.compute_polyloc
       Args.num_bins Args.skip_Ckmedian Args.chr Args.ld_wind_cm
       Args.ld_wind_kb Args.ld_wind_snps Args.keep Args.sumstats
       Args.posterior Args.w_ld_chr Args.bfile_chr Args.set_ld_wind_cm].
  generalize (num_bins_invalid nb); intros nbi.
  destruct p, l, c; try reflexivity;
    destruct ch, bf, po, ss; try reflexivity;
    destruct sk, nbi; try reflexivity;
    destruct cm, kb, sn; try reflexivity;
    destruct kp, wl; reflexivity.
Qed.

Lemma is_None_spec : forall (A : Type) (o : option A), is_None o = true <-> o = None.
Proof. intros A [x|]; simpl; split; congruence. Qed.

Lemma is_not_None_spec :
  forall (A : Type) (o : option A), is_not_None o = true <-> o <> None.
Proof. intros A [x|]; unfold is_not_None; simpl; split; congruence. Qed.

Lemma num_bins_invalid_spec :
  forall nb, num_bins_invalid nb = false <->
             exists k, nb = Some k /\ (0 < k)%Z.
Proof.
  intros [k|]; simpl; split.
  - intros H; exists k; split; [reflexivity | apply Z.leb_gt; exact H].
  - intros [k' [E Hk]]; injection E as ->; apply Z.leb_gt; exact Hk.
  - discriminate.
  - intros [k' [E _]]; discriminate.
Qed.

Lemma consistent_well_formed :
  forall a, consistent a = true <-> well_formed a.
Proof.
  intros [p l c nb sk ch cm kb sn kp ss po wl bf op].
  unfold consistent, well_formed, ld_wind_given, no_ld_wind.
  cbn [Args.compute_partitions Args.compute_ldscores Args.compute_polyloc
       Args.num_bins Args.skip_Ckmedian Args.chr Args.ld_wind_cm
       Args.ld_wind_kb Args.ld_wind_snps Args.keep Args.sumstats
       Args.posterior Args.w_ld_chr Args.bfile_chr].
  rewrite <- (num_bins_invalid_spec nb).
  generalize (num_bins_invalid nb); intros nbi.
  generalize (is_None cm && is_None kb && is_None sn); intros nw.
  rewrite <- !is_not_None_spec, <- (is_None_spec _ wl).
  unfold is_not_None.
  generalize (is_None ch) (is_None bf) (is_None po) (is_None ss)
    (is_None wl) (is_None kp).
  intros bch bbf bpo bss bwl bkp.
  split.
  - intros H.
    destruct p, l, c; simpl in H; try discriminate H;
      destruct bch, bbf, bpo, bss; simpl in H; try discriminate H;
      destruct sk, nbi; simpl in H; try discriminate H;
      destruct nw, bkp, bwl; simpl in H; try discriminate H;
      simpl; repeat split; auto; try discriminate; intros [?|?]; auto;
      discriminate.
  - intros (H1 & H2 & H3 & H4 & H5 & H6 & H7 & H8 & H9 & H10).
    assert (Epo : bpo = negb p).
    { destruct H5 as [A B]; destruct bpo, p; simpl in *; try reflexivity;
        first [discriminate (A eq_refl) | discriminate (B eq_refl)]. }
    assert (Ess : bss = negb c).
    { destruct H6 as [A B]; destruct bss, c; simpl in *; try reflexivity;
        first [discriminate (A eq_refl) | discriminate (B eq_refl)]. }
    assert (Ebf : bbf = negb (p || l)).
    { destruct H4 as [A B]; destruct bbf, p, l; simpl in *; try reflexivity;
        first [ destruct (A eq_refl); discriminate
              | discriminate (B (or_introl eq_refl))
              | discriminate (B (or_intror eq_refl)) ]. }
    subst bpo bss bbf; clear H4 H5 H6.
    destruct p, l, c; simpl in *;
      try (specialize (H2 eq_refl); discriminate H2);
      try (destruct H1 as [?|[?|?]]; discriminate).
    all: clear H1 H2.
    all: destruct bch; simpl in *;
      try (destruct (H3 eq_refl) as (? & ? & ?); discriminate).
    all: clear H3.
    all: destruct bwl; simpl in *; try (specialize (H7 eq_refl); discriminate).
    all: clear H7.
    all: destruct bkp; simpl in *; try (specialize (H10 eq_refl); discriminate).
    all: clear H10.
    all: destruct nw; simpl in *; try (specialize (H9 eq_refl); discriminate).
    all: clear H9.
    all: destruct sk, nbi; simpl in *; try reflexivity;
      specialize (H8 eq_refl); discriminate.
Qed.

(** X1. [check_args] accepts an argument set exactly when the set is
    well formed: a stage is requested, localization comes with both or
    neither of the other two stages, --chr goes with LD-scores alone,
    --bfile-chr, --posterior and --sumstats are given exactly for the
    stages that read them, --w-ld-chr is given for localization,
    --skip-Ckmedian comes with a positive --num-bins, and the window and
    --keep parameters come with LD-scores only. *)
Theorem check_args_accepts_well_formed :
  forall a, is_ok (check_args a) = true <-> well_formed a.
Proof.
  intros a; rewrite check_args_consistent; apply consistent_well_formed.
Qed.

Lemma check_args_result :
  forall a, consistent a = true ->
    check_args a =
    Ok (with_default_window a,
        if Args.compute_ldscores a && no_ld_wind a
        then [warn_ld_wind_default] else []).
Proof.
  intros [p l c nb sk ch cm kb sn kp ss po wl bf op].
  unfold check_args, consistent, ldscores_defaults, ld_wind_given,
    with_default_window, no_ld_wind.
  cbn [Args.compute_partitions Args.compute_ldscores Args.compute_polyloc
       Args.num_bins Args.skip_Ckmedian Args.chr Args.ld_wind_cm
       Args.ld_wind_kb Args.ld_wind_snps Args.keep Args.sumstats
       Args.posterior Args.w_ld_chr Args.bfile_chr Args.set_ld_wind_cm].
  generalize (num_bins_invalid nb); intros nbi.
  destruct p, l, c; try discriminate;
    destruct ch, bf, po, ss; try discriminate;
    destruct sk, nbi; try discriminate;
    destruct cm, kb, sn; try discriminate;
    destruct kp, wl; try discriminate; reflexivity.
Qed.

Lemma consistent_of_ok :
  forall a r, check_args a = Ok r -> consistent a = true.
Proof.
  intros a r H; rewrite <- check_args_consistent, H; reflexivity.
Qed.



Lemma with_default_window_consistent :
  forall a, consistent a = true ->
    consistent (with_default_window a) = true /\
    (Args.compute_ldscores (with_default_window a)
     && no_ld_wind (with_default_window a)) = false /\
    with_default_window (with_default_window a) = with_default_window a.
Proof.
  intros a C.
  destruct (Args.compute_ldscores a && no_ld_wind a) eqn:E.
  - assert (D : with_default_window a = Args.set_ld_wind_cm a (Some 1%Q))
      by (unfold with_default_window; rewrite E; reflexivity).
    rewrite D.
    apply andb_prop in E; destruct E as [El En].
    assert (W : with_default_window (Args.set_ld_wind_cm a (Some 1%Q))
                = Args.set_ld_wind_cm a (Some 1%Q)).
    { unfold with_default_window, no_ld_wind; destruct a; simpl.
      rewrite andb_false_r; reflexivity. }
    split; [|split; [|exact W]].
    + rewrite <- C; destruct a; unfold consistent, ld_wind_given, no_ld_wind;
        simpl in *; rewrite El; reflexivity.
    + destruct a; unfold no_ld_wind; simpl; apply andb_false_r.
  - assert (D : with_default_window a = a)
      by (unfold with_default_window; rewrite E; reflexivity).
    rewrite !D; split; [exact C|]; split; [exact E|reflexivity].
Qed.

(** X3. Checking is idempotent: the arguments [check_args] returns are
    accepted again, unchanged and without a warning. *)
Theorem check_args_idempotent :
  forall a a' warnings,
    check_args a = Ok (a', warnings) ->
    check_args a' = Ok (a', []).
Proof.
  intros a a' w H.
  pose proof (consistent_of_ok _ _ H) as C.
  pose proof (check_args_result a C) as R.
  rewrite H in R; injection R as -> ->.
  destruct (with_default_window_consistent a C) as [C' [Hn Hi]].
  rewrite (check_args_result _ C'), Hn, Hi; reflexivity.
Qed.

Lemma check_args_idempotent_witness :
  exists a' warnings,
    check_args (minimal_args true true true) = Ok (a', warnings) /\
    check_args a' = Ok (a', []).
Proof.
  exists (with_default_window (minimal_args true true true)).
  exists [warn_ld_wind_default].
  split; [reflexivity|].
  apply (check_args_idempotent (minimal_args true true true) _
           [warn_ld_wind_default]).
  reflexivity.
Defined.

(** ** check_files *)

Lemma for_each_ok :
  forall (A : Type) (body : A -> result unit) l,
    for_each body l = Ok tt <-> (forall x, In x l -> body x = Ok tt).
Proof.
  intros A body l; induction l as [|x l IH]; simpl.
  - split; [intros _ y [] | reflexivity].
  - destruct (body x) as [[]|e] eqn:E; simpl.
    + rewrite IH; split.
      * intros H y [<-|Hy]; [exact E | apply H; exact Hy].
      * intros H y Hy; apply H; right; exact Hy.
    + split; [discriminate|].
      intros H; rewrite <- E; apply H; left; reflexivity.
Qed.

Lemma for_each_raise :
  forall (A : Type) (body : A -> result unit) l e,
    for_each body l = Raise e -> exists x, In x l /\ body x = Raise e.
Proof.
  intros A body l e; induction l as [|x l IH]; simpl; [discriminate|].
  destruct (body x) as [[]|e'] eqn:E; simpl.
  - intros H; destruct (IH H) as [y [Hy Ey]]; exists y; split;
      [right; exact Hy | exact Ey].
  - intros H; exists x; split; [left; reflexivity | congruence].
Qed.

Lemma bind_unit_ok :
  forall (r : result unit) (k : result unit),
    bind r (fun _ => k) = Ok tt <-> r = Ok tt /\ k = Ok tt.
Proof.
  intros [[]|e] k; simpl; split.
  - intros H; split; [reflexivity | exact H].
  - intros [_ H]; exact H.
  - discriminate.
  - intros [H _]; discriminate.
Qed.

Lemma bind_unit_raise :
  forall (r : result unit) (k : result unit) e,
    bind r (fun _ => k) = Raise e -> r = Raise e \/ k = Raise e.
Proof.
  intros [[]|e'] k e; simpl; intros H; [right | left]; exact H.
Qed.

Lemma chr_range_In :
  forall a chr_num,
    In chr_num (match Args.chr a with
                | None => arange 1 23
                | Some c => arange c (c + 1)
                end) <-> in_chr_range a chr_num.
Proof.
  intros a chr_num; unfold in_chr_range; destruct (Args.chr a) as [c|];
    rewrite arange_In; lia.
Qed.

Section FilesFacts.

Variable path_exists : string -> bool.
Variable get_file_name : Args.t -> string -> Z -> result string.

Local Abbreviation lookup := (verify get_file_name).
Local Abbreviation found :=
  (fun a kind chr_num => is_ok (get_file_name a kind chr_num) = true).

Lemma verify_ok :
  forall a kind chr_num, lookup a kind chr_num = Ok tt <-> found a kind chr_num.
Proof.
  intros a kind chr_num; unfold verify; simpl.
  destruct (get_file_name a kind chr_num); simpl; split; congruence.
Qed.

Lemma verify_raise :
  forall a kind chr_num e,
    lookup a kind chr_num = Raise e -> get_file_name a kind chr_num = Raise e.
Proof.
  intros a kind chr_num e; unfold verify.
  destruct (get_file_name a kind chr_num); simpl; congruence.
Qed.

Lemma check_posterior_file_ok :
  forall a, check_posterior_file path_exists a = Ok tt <->
    (Args.compute_partitions a = true ->
     exists po, Args.posterior a = Some po /\ path_exists po = true).
Proof.
  intros a; unfold check_posterior_file.
  destruct (Args.compute_partitions a).
  - destruct (Args.posterior a) as [po|].
    + destruct (path_exists po) eqn:E; split.
      * intros _ _; exists po; split; [reflexivity | exact E].
      * reflexivity.
      * discriminate.
      * intros H; destruct (H eq_refl) as [po' [E1 E2]].
        injection E1 as <-; congruence.
    + split; [discriminate|].
      intros H; destruct (H eq_refl) as [po' [E1 _]]; discriminate.
  - split; [intros _; discriminate | reflexivity].
Qed.

Lemma check_plink_files_ok :
  forall a, check_plink_files get_file_name a = Ok tt <->
    (Args.compute_ldscores a = true \/ Args.compute_partitions a = true ->
     forall chr_num, in_chr_range a chr_num ->
       found a "bim" chr_num /\ found a "fam" chr_num /\
       found a "bed" chr_num /\
       (Args.compute_partitions a = false -> found a "bins" chr_num)).
Proof.
  intros a; unfold check_plink_files.
  destruct (Args.compute_ldscores a || Args.compute_partitions a) eqn:E.
  - rewrite for_each_ok.
    apply orb_true_iff in E.
    split.
    + intros H _ chr_num Hc.
      apply chr_range_In in Hc; specialize (H chr_num Hc).
      rewrite !bind_unit_ok, !verify_ok in H.
      destruct H as (H1 & H2 & H3 & H4); repeat split; try assumption.
      intros Hp; rewrite Hp in H4; simpl in H4.
      apply verify_ok; exact H4.
    + intros H chr_num Hc.
      apply chr_range_In in Hc.
      destruct (H E chr_num Hc) as (H1 & H2 & H3 & H4).
      rewrite !bind_unit_ok, !verify_ok; repeat split; try assumption.
      destruct (Args.compute_partitions a); simpl; [reflexivity|].
      apply verify_ok, H4; reflexivity.
  - apply orb_false_iff in E; destruct E as [El Ep].
    split; [|reflexivity].
    intros _ [H|H]; congruence.
Qed.

Lemma check_weights_files_ok :
  forall a, check_weights_files get_file_name a = Ok tt <->
    (Args.compute_polyloc a = true ->
     forall chr_num, (1 <= chr_num < 23)%Z ->
       found a "w-ld" chr_num /\
       (Args.compute_partitions a = false -> found a "bins" chr_num)).
Proof.
  intros a; unfold check_weights_files.
  destruct (Args.compute_polyloc a).
  - rewrite for_each_ok; split.
    + intros H _ chr_num Hc.
      apply arange_In in Hc; specialize (H chr_num Hc).
      rewrite !bind_unit_ok, !verify_ok in H.
      destruct H as (H1 & H4); split; [assumption|].
      intros Hp; rewrite Hp in H4; simpl in H4.
      apply verify_ok; exact H4.
    + intros H chr_num Hc.
      apply arange_In in Hc.
      destruct (H eq_refl chr_num Hc) as (H1 & H4).
      rewrite !bind_unit_ok, !verify_ok; split; [assumption|].
      destruct (Args.compute_partitions a); simpl; [reflexivity|].
      apply verify_ok, H4; reflexivity.
  - split; [intros _; discriminate | reflexivity].
Qed.

(** X4. [check_files] succeeds exactly when the posterior file exists
    (if the run partitions) and every required file is found: the
    genotype files bim, fam and bed of each chromosome of the range for
    partitioning or LD-scores, the weights of chromosomes 1 to 22 for
    localization, and the bins of those chromosomes whenever the run
    does not partition. *)
Theorem check_files_succeeds_iff :
  forall a,
    check_files path_exists get_file_name a = Ok tt <->
    (Args.compute_partitions a = true ->
     exists po, Args.posterior a = Some po /\ path_exists po = true)
    /\ (forall kind chr_num, required a kind chr_num ->
          is_ok (get_file_name a kind chr_num) = true).
Proof.
  intros a; unfold check_files.
  rewrite !bind_unit_ok, check_posterior_file_ok, check_plink_files_ok,
    check_weights_files_ok.
  split.
  - intros (H1 & H2 & H3); split; [exact H1|].
    intros kind chr_num [(Hs & Hc & Hk) | (Hs & Hc & Hk)].
    + destruct (H2 Hs chr_num Hc) as (B1 & B2 & B3 & B4).
      destruct Hk as [->|[->|[->|[-> Hp]]]]; auto.
    + destruct (H3 Hs chr_num Hc) as (B1 & B4).
      destruct Hk as [->|[-> Hp]]; auto.
  - intros (H1 & H); split; [exact H1|]; split.
    + intros Hs chr_num Hc.
      assert (R : forall kind,
                 kind = "bim" \/ kind = "fam" \/ kind = "bed"
                 \/ (kind = "bins" /\ Args.compute_partitions a = false) ->
                 is_ok (get_file_name a kind chr_num) = true).
      { intros kind Hk; apply H; left; split; [exact Hs|].
        split; [exact Hc | exact Hk]. }
      split; [apply R; left; reflexivity|].
      split; [apply R; right; left; reflexivity|].
      split; [apply R; right; right; left; reflexivity|].
      intros Hp; apply R; right; right; right; split; [reflexivity|exact Hp].
    + intros Hs chr_num Hc.
      assert (R : forall kind,
                 kind = "w-ld"
                 \/ (kind = "bins" /\ Args.compute_partitions a = false) ->
                 is_ok (get_file_name a kind chr_num) = true).
      { intros kind Hk; apply H; right; split; [exact Hs|].
        split; [exact Hc | exact Hk]. }
      split; [apply R; left; reflexivity|].
      intros Hp; apply R; right; split; [reflexivity|exact Hp].
Qed.

Lemma accepted_posterior :
  forall a a' warnings,
    check_args a = Ok (a', warnings) ->
    well_formed a' /\ Args.chr a' = Args.chr a.
Proof.
  intros a a' w H.
  pose proof (consistent_of_ok _ _ H) as C.
  pose proof (check_args_result a C) as R.
  rewrite H in R; injection R as -> _.
  split.
  - apply consistent_well_formed, with_default_window_consistent, C.
  - unfold with_default_window.
    destruct (Args.compute_ldscores a && no_ld_wind a); [|reflexivity].
    destruct a; reflexivity.
Qed.

Lemma check_posterior_file_raise :
  forall a e,
    well_formed a ->
    check_posterior_file path_exists a = Raise e ->
    exists po, Args.posterior a = Some po /\ path_exists po = false /\
               e = IOError (po ++ " not found").
Proof.
  intros a e W; unfold check_posterior_file.
  destruct (Args.compute_partitions a) eqn:Ep; [|discriminate].
  destruct W as (_ & _ & _ & _ & [_ W] & _).
  destruct (Args.posterior a) as [po|]; [|destruct (W Ep); reflexivity].
  destruct (path_exists po) eqn:E; [discriminate|].
  intros H; injection H as <-; exists po; auto.
Qed.

Lemma check_plink_files_raise :
  forall a e,
    check_plink_files get_file_name a = Raise e ->
    exists kind chr_num,
      required a kind chr_num /\ get_file_name a kind chr_num = Raise e.
Proof.
  intros a e; unfold check_plink_files.
  destruct (Args.compute_ldscores a || Args.compute_partitions a) eqn:E;
    [|discriminate].
  apply orb_true_iff in E.
  intros H; apply for_each_raise in H; destruct H as [chr_num [Hc H]].
  apply chr_range_In in Hc.
  assert (R : forall kind,
             kind = "bim" \/ kind = "fam" \/ kind = "bed"
             \/ (kind = "bins" /\ Args.compute_partitions a = false) ->
             required a kind chr_num).
  { intros kind Hk; left; split; [exact E|]; split; [exact Hc|exact Hk]. }
  apply bind_unit_raise in H; destruct H as [H|H].
  { exists "bim", chr_num; split; [apply R; auto | apply verify_raise, H]. }
  apply bind_unit_raise in H; destruct H as [H|H].
  { exists "fam", chr_num; split; [apply R; auto | apply verify_raise, H]. }
  apply bind_unit_raise in H; destruct H as [H|H].
  { exists "bed", chr_num; split; [apply R; auto | apply verify_raise, H]. }
  destruct (Args.compute_partitions a) eqn:Ep; simpl in H; [discriminate|].
  exists "bins", chr_num; split; [apply R; auto 6 | apply verify_raise, H].
Qed.

Lemma check_weights_files_raise :
  forall a e,
    check_weights_files get_file_name a = Raise e ->
    exists kind chr_num,
      required a kind chr_num /\ get_file_name a kind chr_num = Raise e.
Proof.
  intros a e; unfold check_weights_files.
  destruct (Args.compute_polyloc a) eqn:E; [|discriminate].
  intros H; apply for_each_raise in H; destruct H as [chr_num [Hc H]].
  apply arange_In in Hc.
  assert (R : forall kind,
             kind = "w-ld"
             \/ (kind = "bins" /\ Args.compute_partitions a = false) ->
             required a kind chr_num).
  { intros kind Hk; right; split; [exact E|]; split; [exact Hc|exact Hk]. }
  apply bind_unit_raise in H; destruct H as [H|H].
  { exists "w-ld", chr_num; split; [apply R; auto | apply verify_raise, H]. }
  destruct (Args.compute_partitions a) eqn:Ep; simpl in H; [discriminate|].
  exists "bins", chr_num; split; [apply R; auto | apply verify_raise, H].
Qed.

(** X5. Checked arguments, then [check_files] (lines 262-263): on
    arguments [check_args] returned, [check_files] fails in two ways
    only, with [IOError] for a posterior file that does not exist, or
    with the exception of the lookup of a required file; the call of
    [os.path.exists] never meets a missing --posterior. *)
Theorem check_files_after_check_args :
  forall a a' warnings e,
    check_args a = Ok (a', warnings) ->
    check_files path_exists get_file_name a' = Raise e ->
    (exists po, Args.posterior a' = Some po /\ path_exists po = false /\
                e = IOError (po ++ " not found"))
    \/ (exists kind chr_num,
          required a' kind chr_num /\
          get_file_name a' kind chr_num = Raise e).
Proof.
  intros a a' w e Ha H.
  destruct (accepted_posterior _ _ _ Ha) as [W _].
  unfold check_files in H.
  apply bind_unit_raise in H; destruct H as [H|H].
  { left; exact (check_posterior_file_raise a' e W H). }
  apply bind_unit_raise in H; destruct H as [H|H]; right.
  - exact (check_plink_files_raise a' e H).
  - exact (check_weights_files_raise a' e H).
Qed.

(** X6. A run on one chromosome: when [check_args] accepts arguments
    with --chr [c], [check_files] succeeds exactly when the bim, fam,
    bed and bins files of chromosome [c] are found; no other chromosome,
    no weights and no posterior file is looked at. *)
Theorem check_files_single_chromosome :
  forall a a' warnings c,
    Args.chr a = Some c ->
    check_args a = Ok (a', warnings) ->
    (check_files path_exists get_file_name a' = Ok tt <->
     forall kind, In kind ["bim"; "fam"; "bed"; "bins"] ->
       is_ok (get_file_name a' kind c) = true).
Proof.
  intros a a' w c Hc Ha.
  destruct (accepted_posterior _ _ _ Ha) as [W Ec].
  rewrite Hc in Ec.
  destruct W as (_ & _ & W & _).
  destruct W as (Ep & El & Eo); [congruence|].
  unfold check_files.
  rewrite !bind_unit_ok, check_posterior_file_ok, check_plink_files_ok,
    check_weights_files_ok.
  unfold in_chr_range; rewrite Ec, Ep, El, Eo.
  split.
  - intros (_ & H & _) kind Hk.
    destruct (H (or_introl eq_refl) c eq_refl) as (B1 & B2 & B3 & B4).
    simpl in Hk; destruct Hk as [<-|[<-|[<-|[<-|[]]]]]; auto.
  - intros H; split; [discriminate|]; split; [|discriminate].
    intros _ chr_num ->; repeat split; try intros _; apply H; simpl; auto.
Qed.

End FilesFacts.

Lemma check_files_after_check_args_witness :
  exists e,
    check_args (minimal_args true false false)
    = Ok (minimal_args true false false, []) /\
    check_files (fun _ => false) (fun _ _ _ => Ok "file")
      (minimal_args true false false) = Raise e /\
    ((exists po, Args.posterior (minimal_args true false false) = Some po /\
                 (fun _ : string => false) po = false /\
                 e = IOError (po ++ " not found"))
     \/ (exists kind chr_num,
           required (minimal_args true false false) kind chr_num /\
           (fun (_ : Args.t) (_ : string) (_ : Z) => Ok "file")
             (minimal_args true false false) kind chr_num = Raise e)).
Proof.
  exists (IOError "posterior.parquet not found").
  split; [reflexivity|]; split; [reflexivity|].
  apply (check_files_after_check_args (fun _ => false)
           (fun _ _ _ => Ok "file") (minimal_args true false false)
           (minimal_args true false false) []); reflexivity.
Defined.

Lemma check_files_single_chromosome_witness :
  Args.chr (chromosome_args 7)
  = Some 7%Z /\
  check_files (fun _ => false)
    (fun _ _ chr_num => if (chr_num =? 7)%Z then Ok "file"
                        else Raise (IOError "missing"))
    (with_default_window (chromosome_args 7))
  = Ok tt.
Proof.
  split; [reflexivity|].
  apply (check_files_single_chromosome (fun _ => false)
           (fun _ _ chr_num => if (chr_num =? 7)%Z then Ok "file"
                               else Raise (IOError "missing"))
           (chromosome_args 7)
           _ [warn_ld_wind_default] 7%Z).
  - reflexivity.
  - reflexivity.
  - intros kind _; reflexivity.
Defined.

(** ** load_posterior_betas *)



Lemma map_result_raise :
  forall (A B : Type) (f : A -> result B) (l : list A) e,
    map_result f l = Raise e -> exists a, In a l /\ f a = Raise e.
Proof.
  intros A B f l e; induction l as [|a l IH]; simpl; [discriminate|].
  destruct (f a) as [b|e'] eqn:E; simpl.
  - destruct (map_result f l) as [bs'|e'']; simpl; [discriminate|].
    intros H; injection H as ->.
    destruct (IH eq_refl) as [x [Hx Ex]]; exists x; split;
      [right; exact Hx | exact Ex].
  - intros H; injection H as ->; exists a; split; [left; reflexivity|exact E].
Qed.


Section PosteriorFacts.

Variable N : numeric.

Local Abbreviation F := (num N).

Implicit Types (df : DataFrame F) (rs : list (row F)).

Lemma check_columns_fold :
  forall posterior cols l flag log,
    fold_left
      (fun (st : bool * list string) column =>
         if negb (mem column cols)
         then (true, snd st ++ [msg_missing_column posterior column])
         else st)
      l (flag, log)
    = (flag || existsb (fun c => negb (mem c cols)) l,
       log ++ map (msg_missing_column posterior)
                  (filter (fun c => negb (mem c cols)) l)).
Proof.
  intros posterior cols l; induction l as [|c l IH]; intros flag log; simpl.
  - rewrite orb_false_r, app_nil_r; reflexivity.
  - destruct (negb (mem c cols)); simpl.
    + rewrite IH, <- app_assoc, orb_true_r; reflexivity.
    + apply IH.
Qed.

Lemma existsb_filter :
  forall (A : Type) (f : A -> bool) (l : list A),
    existsb f l = false <-> filter f l = [].
Proof.
  intros A f l; induction l as [|a l IH]; simpl; [tauto|].
  destruct (f a); simpl; [split; discriminate | exact IH].
Qed.

Lemma check_columns_spec :
  forall posterior df,
    check_columns posterior (columns (upper_columns N df))
    = (match missing_columns (columns df) with [] => false | _ => true end,
       map (msg_missing_column posterior) (missing_columns (columns df))).
Proof.
  intros posterior df; unfold check_columns, missing_columns.
  generalize REQUIRED_COLUMNS; intros l.
  rewrite check_columns_fold; cbn [orb app columns upper_columns].
  f_equal.
  destruct (filter _ l) eqn:E.
  - apply existsb_filter; exact E.
  - destruct (existsb _ l) eqn:B; [reflexivity|].
    apply existsb_filter in B; rewrite B in E; discriminate.
Qed.

Lemma pow_operand_raise :
  forall c e, pow_operand N c = Raise e -> e = TypeError msg_pow_operand.
Proof.
  intros [z|x|s|b|] e; simpl; intros H; try discriminate.
  injection H as <-; reflexivity.
Qed.

Lemma getitem_raise :
  forall df c e, getitem N df c = Raise e -> e = KeyError c.
Proof.
  intros df c e; unfold getitem; destruct (col_index c (columns df));
    [discriminate|].
  intros H; injection H as <-; reflexivity.
Qed.

(** X7. The column check of [load_posterior_betas]: the header is
    compared without regard to case; one error is logged for each
    required column the file lacks, in the order CHR, SNP, BP, A1, A2,
    BETA_MEAN, BETA_SD; and the function ends with the [ValueError]
    about missing columns exactly when at least one is lacking. *)
Theorem load_posterior_betas_missing_columns :
  forall posterior df,
    snd (load_posterior_betas N posterior df)
    = map (msg_missing_column posterior) (missing_columns (columns df))
    /\ (fst (load_posterior_betas N posterior df)
        = Raise (ValueError (msg_missing_columns posterior))
        <-> missing_columns (columns df) <> []).
Proof.
  intros posterior df; unfold load_posterior_betas.
  rewrite check_columns_spec; cbn [fst snd].
  destruct (missing_columns (columns df)) as [|c l] eqn:E.
  - split; [reflexivity|]; split; [|intros H; exfalso; apply H; reflexivity].
    cbn [fst]; intros H; exfalso.
    destruct (getitem N (upper_columns N df) "BETA_MEAN") as [m|e] eqn:E1;
      cbn [bind] in H;
      [|apply getitem_raise in E1; congruence].
    destruct (map_result (pow_operand N) m) as [m'|e] eqn:E2; cbn [bind] in H.
    2:{ apply map_result_raise in E2; destruct E2 as [x [_ E2]].
        apply pow_operand_raise in E2; congruence. }
    destruct (getitem N (upper_columns N df) "BETA_SD") as [s|e] eqn:E3;
      cbn [bind] in H;
      [|apply getitem_raise in E3; congruence].
    destruct (map_result (pow_operand N) s) as [s'|e] eqn:E4; cbn [bind] in H.
    2:{ apply map_result_raise in E4; destruct E4 as [x [_ E4]].
        apply pow_operand_raise in E4; congruence. }
    discriminate H.
  - split; [reflexivity|]; split; [discriminate | reflexivity].
Qed.











End PosteriorFacts.





(** ** compute_polyloc: what it writes *)

Section OutputFacts.

Variable N : numeric.

Local Abbreviation F := (num N).

(** X10. Once [run_ldsc] has left its results, [compute_polyloc] writes
    one file and writes it last: a run that succeeds adds the [.polyloc]
    file of the table it returns to the files it found, and a run that
    fails, for whatever reason, leaves the files as they were. *)
Theorem compute_polyloc_writes_last :
  forall (hsqhat : Hsq N) prefix (fs fs' : files F) r,
    compute_polyloc N hsqhat prefix fs = (r, fs') ->
    match r with
    | Ok df => fs' = ((prefix ++ ".polyloc")%string, polyloc_csv N df) :: fs
    | Raise _ => fs' = fs
    end.
Proof.
  intros hsqhat prefix fs fs' r; unfold compute_polyloc.
  unfold io_bind at 1, read_table.
  destruct (read_file (prefix ++ ".binsize") fs) as [f|].
  2:{ intros H; injection H as <- <-; reflexivity. }
  unfold io_bind at 1, io_lift at 1.
  destruct (getitem N _ "BIN_SIZE") as [cells|e].
  2:{ intros H; injection H as <- <-; reflexivity. }
  unfold io_bind at 1, io_lift at 1.
  destruct (map_result (cell_num N) cells) as [sizes|e].
  2:{ intros H; injection H as <- <-; reflexivity. }
  unfold io_bind at 1, io_lift at 1.
  destruct (localize N (taus_of N hsqhat) sizes) as [cols|e].
  2:{ intros H; injection H as <- <-; reflexivity. }
  unfold io_bind, io_write, io_ret, write_file.
  intros H; injection H as <- <-; reflexivity.
Qed.

Lemma compute_polyloc_no_file :
  forall (hsqhat : Hsq N) prefix (fs : files F),
    read_file (prefix ++ ".binsize")%string fs = None ->
    compute_polyloc N hsqhat prefix fs
    = (Raise (IOError (prefix ++ ".binsize")), fs).
Proof.
  intros hsqhat prefix fs H; unfold compute_polyloc.
  unfold io_bind at 1, read_table; rewrite H; reflexivity.
Qed.

Lemma polyloc_frame_records :
  forall (table : list (Z * Z)) (h2 sum_h2 : list F),
    List.length h2 = List.length table ->
    List.length sum_h2 = List.length table ->
    columns (polyloc_frame N table h2 sum_h2)
    = ["BIN"; "BIN_SIZE"; H2; SUM_H2]
    /\ map snd (rows (polyloc_frame N table h2 sum_h2))
       = map (fun q => [CInt (fst (fst q)); CInt (snd (fst q));
                        CFloat (fst (snd q)); CFloat (snd (snd q))])
             (combine table (combine h2 sum_h2)).
Proof.
  intros table h2 sum_h2 Hh Hs; split; [reflexivity|].
  unfold polyloc_frame, binsize_frame.
  assert (Hl : List.length (map fmt_d (arange 0 (Z.of_nat (List.length table))))
               = List.length table)
    by (rewrite length_map, arange_length; lia).
  revert Hl; generalize (map fmt_d (arange 0 (Z.of_nat (List.length table)))).
  intros ls Hl.
  unfold set_column at 2; cbn [columns rows col_index String.eqb Ascii.eqb
                               Bool.eqb option_map].
  unfold set_column; cbn [columns rows col_index String.eqb Ascii.eqb
                          Bool.eqb option_map app].
  revert ls h2 sum_h2 Hl Hh Hs.
  induction table as [|p table IH]; intros [|l ls] [|x h2] [|y s2] Hl Hh Hs;
    simpl in *; try discriminate; [reflexivity|].
  rewrite IH by lia; reflexivity.
Qed.

Lemma firstn_two_records :
  forall (table : list (Z * Z)) (h2 sum_h2 : list F),
    List.length h2 = List.length table ->
    List.length sum_h2 = List.length table ->
    map (firstn 2)
        (map (fun q : Z * Z * (F * F) =>
                [CInt (fst (fst q)); CInt (snd (fst q));
                 CFloat (fst (snd q)); CFloat (snd (snd q))])
             (combine table (combine h2 sum_h2)))
    = map (fun p => [@CInt F (fst p); CInt (snd p)]) table.
Proof.
  induction table as [|p table IH]; intros [|x h2] [|y s2] Hh Hs;
    simpl in *; try discriminate; [reflexivity|].
  rewrite IH by lia; reflexivity.
Qed.

Lemma compute_polyloc_bins :
  forall (hsqhat : Hsq N) prefix (fs : files F) table,
    read_file (prefix ++ ".binsize")%string fs = Some (binsize_csv table) ->
    List.length (taus_of N hsqhat) = List.length table ->
    exists df,
      compute_polyloc N hsqhat prefix fs =
      (Ok df, ((prefix ++ ".polyloc")%string, polyloc_csv N df) :: fs) /\
      header (polyloc_csv N df) = ["BIN"; "BIN_SIZE"; H2; SUM_H2] /\
      map (firstn 2) (records (polyloc_csv N df)) = records (binsize_csv table).
Proof.
  intros hsqhat prefix fs table Hf Hl.
  rewrite (compute_polyloc_run N hsqhat prefix fs table Hf).
  rewrite localize_aligned by (rewrite sizes_of_length; exact Hl).
  cbn [fst snd].
  set (c := contributions N (taus_of N hsqhat) (sizes_of N table)).
  set (h2 := map (fun x => ndiv N x (series_sum N c)) c).
  assert (Lh : List.length h2 = List.length table).
  { unfold h2, c; rewrite length_map, contributions_length;
      rewrite sizes_of_length; [reflexivity | exact Hl]. }
  assert (Ls : List.length (cumsum N h2) = List.length table).
  { unfold cumsum; rewrite cumsum_from_length; exact Lh. }
  destruct (polyloc_frame_records table h2 (cumsum N h2) Lh Ls) as [Ec Er].
  eexists; split; [reflexivity|].
  unfold polyloc_csv; cbn [header records]; split; [exact Ec|].
  rewrite Er, (firstn_two_records table h2 (cumsum N h2) Lh Ls).
  reflexivity.
Qed.

(** X11. The localization table keeps the bins: when the coefficients
    are as many as the bins of the [.binsize] file, the [.polyloc] file
    has the columns BIN, BIN_SIZE, %H2 and SUM_%H2, and one record per
    bin, in the order of the [.binsize] file, each beginning with the
    number and the size of its bin as they were read. *)
Theorem compute_polyloc_keeps_bins :
  forall (hsqhat : Hsq N) prefix (fs : files F) table,
    read_file (prefix ++ ".binsize")%string fs = Some (binsize_csv table) ->
    List.length (taus_of N hsqhat) = List.length table ->
    exists df,
      compute_polyloc N hsqhat prefix fs =
      (Ok df, ((prefix ++ ".polyloc")%string, polyloc_csv N df) :: fs) /\
      header (polyloc_csv N df) = ["BIN"; "BIN_SIZE"; H2; SUM_H2] /\
      map (firstn 2) (records (polyloc_csv N df))
      = map (fun p => [CInt (fst p); CInt (snd p)]) table.
Proof.
  intros hsqhat prefix fs table Hf Hl.
  destruct (compute_polyloc_bins hsqhat prefix fs table Hf Hl)
    as [df [Hrun [Hh Hr]]].
  exists df; split; [exact Hrun|]; split; [exact Hh|].
  rewrite Hr; reflexivity.
Qed.

End OutputFacts.

Lemma compute_polyloc_writes_last_witness :
  match fst (compute_polyloc ExactQ (exact_hsq Scenario.est 3 1) "out"
               (Scenario.persisted (num ExactQ) Scenario.sizes)) with
  | Ok df =>
      snd (compute_polyloc ExactQ (exact_hsq Scenario.est 3 1) "out"
             (Scenario.persisted (num ExactQ) Scenario.sizes))
      = ("out.polyloc", polyloc_csv ExactQ df)
        :: Scenario.persisted (num ExactQ) Scenario.sizes
  | Raise _ =>
      snd (compute_polyloc ExactQ (exact_hsq Scenario.est 3 1) "out"
             (Scenario.persisted (num ExactQ) Scenario.sizes))
      = Scenario.persisted (num ExactQ) Scenario.sizes
  end.
Proof.
  apply (compute_polyloc_writes_last ExactQ (exact_hsq Scenario.est 3 1)
           "out" (Scenario.persisted (num ExactQ) Scenario.sizes)).
  apply surjective_pairing.
Defined.

Lemma compute_polyloc_keeps_bins_witness :
  exists df,
    compute_polyloc ExactQ (exact_hsq Scenario.est 3 1) "out"
      (Scenario.persisted (num ExactQ) Scenario.sizes)
    = (Ok df, ("out.polyloc", polyloc_csv ExactQ df)
              :: Scenario.persisted (num ExactQ) Scenario.sizes) /\
    header (polyloc_csv ExactQ df) = ["BIN"; "BIN_SIZE"; H2; SUM_H2] /\
    map (firstn 2) (records (polyloc_csv ExactQ df))
    = map (fun p => [CInt (fst p); CInt (snd p)]) Scenario.sizes.
Proof.
  apply (compute_polyloc_keeps_bins ExactQ (exact_hsq Scenario.est 3 1)
           "out" (Scenario.persisted (num ExactQ) Scenario.sizes)
           Scenario.sizes); reflexivity.
Defined.

(** ** polyloc_main *)

Section MainFacts.

Variable N : numeric.

Local Abbreviation F := (num N).

Variable save_bins_to_disk : DataFrame F -> files F -> files F.
Variable compute_ld_scores : Args.t -> io F unit.
Variable run_ldsc : Args.t -> files F -> Hsq N.

Local Abbreviation main :=
  (polyloc_main N save_bins_to_disk compute_ld_scores run_ldsc).

(** X12. [polyloc_main] stops at the first stage that fails: when the
    partition stage is requested and the posterior file names a variant
    the genotype files lack, the run ends with the integrity error,
    whatever the other two stages would do: neither the bins nor the
    bin sizes are saved, no LD-score is computed and no regression is
    run. *)
Theorem polyloc_main_stops_at_partition_error :
  forall args bim K P fs k,
    Args.compute_partitions args = true ->
    In k (posterior_keys P) -> ~ In k (universe_keys bim) ->
    main args bim K P fs = (Raise (ValueError msg_not_in_plink), fs).
Proof.
  intros args bim K P fs k Hp Hk Hn; unfold polyloc_main, when.
  rewrite Hp; unfold io_bind at 1; unfold io_bind at 1.
  rewrite (polyloc_partitions_raise save_bins_to_disk bim K P
             (Args.output_prefix args) fs k Hk Hn).
  reflexivity.
Qed.

(** X13. A run that only localizes depends on the files of an earlier
    run: with --compute-polyloc alone and no [.binsize] file under the
    output prefix, [polyloc_main] fails with an [IOError] on that file
    and writes nothing. *)
Theorem polyloc_main_localize_needs_binsize :
  forall args bim K P fs,
    Args.compute_partitions args = false ->
    Args.compute_ldscores args = false ->
    Args.compute_polyloc args = true ->
    read_file (Args.output_prefix args ++ ".binsize")%string fs = None ->
    main args bim K P fs
    = (Raise (IOError (Args.output_prefix args ++ ".binsize")), fs).
Proof.
  intros args bim K P fs Hp Hl Hc Hf; unfold polyloc_main, when.
  rewrite Hp, Hl, Hc; unfold io_bind at 1, io_ret at 1.
  unfold io_bind at 1, io_ret at 1; unfold io_bind.
  rewrite (compute_polyloc_no_file N _ _ fs Hf); reflexivity.
Qed.

(** X14. The bin sizes travel from the partition stage to the
    localization stage through the [.binsize] file: in a run of the
    stages together, on posterior variants that all occur in the
    genotype files, with an LD-score stage that leaves that file alone
    and as many coefficients as bins, [polyloc_main] succeeds, and
    every record of the [.polyloc] file begins with the number of a bin
    and the count of the rows of the completed matrix that lie in it. *)
Theorem polyloc_main_round_trip :
  forall args bim K P fs,
    Args.compute_partitions args = true ->
    Args.compute_polyloc args = true ->
    labelled K P = true ->
    incl (posterior_keys P) (universe_keys bim) ->
    preserves N (Args.output_prefix args ++ ".binsize")
      (when N (Args.compute_ldscores args) (compute_ld_scores args)) ->
    (forall fs',
       List.length (taus_of N (run_ldsc args fs'))
       = List.length (bin_columns (completed K (universe bim) P))) ->
    exists df fs',
      main args bim K P fs
      = (Ok tt,
         ((Args.output_prefix args ++ ".polyloc")%string, polyloc_csv N df)
         :: fs') /\
      map (firstn 2) (records (polyloc_csv N df))
      = map (fun i =>
               [CInt (Z.of_nat (S i));
                CInt (Z.of_nat (bin_count (completed K (universe bim) P) i))])
            (seq 0 (List.length (bin_columns (completed K (universe bim) P)))).
Proof.
  intros args bim K P fs Hp Hc HL Hin Hld Hn; unfold polyloc_main.
  rewrite Hp, Hc; unfold when at 1 3.
  unfold io_bind at 1; unfold io_bind at 1.
  rewrite (polyloc_partitions_run save_bins_to_disk bim K P
             (Args.output_prefix args) fs HL Hin).
  unfold io_ret at 1.
  set (table := size_table (completed K (universe bim) P)).
  set (fs1 := (((Args.output_prefix args ++ ".binsize")%string,
                binsize_csv table)
               :: save_bins_to_disk (completed K (universe bim) P) fs)).
  unfold io_bind at 1.
  destruct (Hld fs1) as [fs2 [E2 R2]]; rewrite E2.
  assert (Hf : read_file (Args.output_prefix args ++ ".binsize")%string fs2
               = Some (binsize_csv table)).
  { rewrite R2; unfold fs1; cbn [read_file]; rewrite String.eqb_refl.
    reflexivity. }
  assert (Hlen : List.length (taus_of N (run_ldsc args fs2))
                 = List.length table).
  { rewrite Hn; unfold table, size_table; rewrite length_map, length_seq.
    reflexivity. }
  destruct (compute_polyloc_bins N (run_ldsc args fs2)
              (Args.output_prefix args) fs2 table Hf Hlen)
    as [df [Hrun [_ Hr]]].
  unfold io_bind; rewrite Hrun; unfold io_ret.
  exists df, fs2; split; [reflexivity|].
  rewrite Hr; unfold binsize_csv, table, size_table; cbn [records].
  rewrite map_map; reflexivity.
Qed.

End MainFacts.

Lemma polyloc_main_stops_at_partition_error_witness :
  polyloc_main ExactQ Pipeline.no_save Pipeline.ld_scores Pipeline.ldsc
    Pipeline.args Pipeline.bim 2 Scenario.P_unknown []
  = (Raise (ValueError msg_not_in_plink), []).
Proof.
  apply (polyloc_main_stops_at_partition_error ExactQ Pipeline.no_save
           Pipeline.ld_scores Pipeline.ldsc Pipeline.args Pipeline.bim 2
           Scenario.P_unknown [] "rs9AC").
  - reflexivity.
  - right; left; reflexivity.
  - intros H; vm_compute in H; intuition discriminate.
Defined.

Lemma polyloc_main_localize_needs_binsize_witness :
  polyloc_main ExactQ Pipeline.no_save Pipeline.ld_scores Pipeline.ldsc
    Pipeline.args_localize Pipeline.bim 2 Scenario.P []
  = (Raise (IOError "out.binsize"), []).
Proof.
  apply (polyloc_main_localize_needs_binsize ExactQ Pipeline.no_save
           Pipeline.ld_scores Pipeline.ldsc Pipeline.args_localize
           Pipeline.bim 2 Scenario.P []); reflexivity.
Defined.

Lemma polyloc_main_round_trip_witness :
  exists df fs',
    polyloc_main ExactQ Pipeline.no_save Pipeline.ld_scores Pipeline.ldsc
      Pipeline.args Pipeline.bim 2 Scenario.P []
    = (Ok tt, ("out.polyloc", polyloc_csv ExactQ df) :: fs') /\
    map (firstn 2) (records (polyloc_csv ExactQ df))
    = map (fun i =>
             [CInt (Z.of_nat (S i));
              CInt (Z.of_nat
                      (bin_count
                         (completed 2 (universe Pipeline.bim) Scenario.P) i))])
          (seq 0 (List.length
                    (bin_columns
                       (completed 2 (universe Pipeline.bim) Scenario.P)))).
Proof.
  apply (polyloc_main_round_trip ExactQ Pipeline.no_save Pipeline.ld_scores
           Pipeline.ldsc Pipeline.args Pipeline.bim 2 Scenario.P []).
  - reflexivity.
  - reflexivity.
  - reflexivity.
  - intros k H; vm_compute in H; vm_compute; intuition.
  - intros fs; eexists; split; [reflexivity|].
    unfold Pipeline.args, minimal_args; cbn [Args.output_prefix write_file].
    reflexivity.
  - intros fs'; reflexivity.
Defined.

(** ** compute_polyloc in exact arithmetic: scale and bounds *)














(** ** polyloc_partitions: the sizes of the bins *)

Section PartitionSizes.

Context {F : Type}.

Variable save_bins_to_disk : DataFrame F -> files F -> files F.

Implicit Types (bim : Z -> list (bim_line F)) (P : list snp_row).
Implicit Types (U : list (bim_line F)) (r : row F).

(** The posterior variants labelled with bin [i + 1]. *)
Lemma nth_bin_cell :
  forall (bs : list bool) (tl : list (cell F)) i,
    (i < List.length bs)%nat ->
    is_true_cell (nth i (map CBool bs ++ tl) CNaN) = nth i bs false.
Proof.
  induction bs as [|b bs IH]; intros tl i Hi; simpl in Hi; [lia|].
  destruct i as [|i]; simpl; [destruct b; reflexivity|].
  apply IH; lia.
Qed.

Lemma nth_residual_cell :
  forall K i, (i <= K)%nat ->
    @is_true_cell F (nth i (repeat (CBool false) K ++ [CBool true]) CNaN)
    = (i =? K)%nat.
Proof.
  induction K as [|K IH]; intros i Hi.
  - replace i with 0%nat by lia; reflexivity.
  - destruct i as [|i]; [reflexivity|].
    cbn [repeat app nth]; rewrite IH by lia; reflexivity.
Qed.

Lemma count_labelled_rows :
  forall K P (tl : list (cell F)) i,
    labelled K P = true -> (i < K)%nat ->
    List.length
      (filter (fun r => is_true_cell (nth i (skipn 5 (snd r)) CNaN))
         (map (fun x : row F => (fst x, snd x ++ tl))
              (rows (@bins_frame F K P))))
    = List.length (filter (fun x => nth i (snp_bins x) false) P).
Proof.
  intros K P tl i HL Hi; unfold bins_frame; cbn [rows].
  rewrite map_map, filter_map_comm, length_map; f_equal.
  apply filter_ext_in; intros x Hx; cbn [fst snd].
  destruct (labelled_row K P x HL Hx) as [Hl _].
  rewrite <- app_assoc; cbn [app skipn].
  apply nth_bin_cell; lia.
Qed.

Lemma count_residual_rows :
  forall K U P i, (i <= K)%nat ->
    List.length
      (filter (fun r => is_true_cell (nth i (skipn 5 (snd r)) CNaN))
         (residual_rows K U P))
    = if (i =? K)%nat then List.length (residual_rows K U P) else 0%nat.
Proof.
  intros K U P i Hi; unfold residual_rows.
  generalize (located (map bim_key (unlabelled U P)) (rows (bim_frame U))).
  intros rs; rewrite filter_map_comm, !length_map.
  rewrite (filter_ext _ (fun _ => (i =? K)%nat)).
  - destruct (i =? K)%nat.
    + rewrite forallb_filter_id; [reflexivity|].
      apply forallb_forall; reflexivity.
    + rewrite filter_none; reflexivity.
  - intros r; cbn [snd].
    replace (skipn 5 (repeat (CBool false) (5 + K) ++ [CBool true]))
      with (repeat (@CBool F false) K ++ [CBool true]) by reflexivity.
    apply nth_residual_cell; exact Hi.
Qed.

Lemma bin_count_skip :
  forall (df : DataFrame F) i, valid_matrix df = true ->
    bin_count df i
    = List.length
        (filter (fun r => is_true_cell (nth i (skipn 5 (snd r)) CNaN))
                (rows df)).
Proof.
  intros df i V; unfold bin_count; f_equal.
  apply filter_ext_in; intros r Hr.
  rewrite (bin_values_skip df r V Hr); reflexivity.
Qed.

Lemma bin_count_existing :
  forall K U P i, labelled K P = true -> (i < K)%nat ->
    bin_count (completed K U P) i
    = List.length (filter (fun x => nth i (snp_bins x) false) P).
Proof.
  intros K U P i HL Hi.
  rewrite (bin_count_skip _ i (completed_valid K U P HL)).
  unfold completed; destruct (List.length P <? List.length U)%nat;
    cbn [rows].
  - rewrite filter_app, length_app.
    etransitivity;
      [apply f_equal2;
       [exact (count_labelled_rows K P [CBool false] i HL Hi)
       | apply count_residual_rows; lia]|].
    destruct (Nat.eqb_spec i K); lia.
  - etransitivity; [|exact (count_labelled_rows K P [] i HL Hi)].
    f_equal; f_equal.
    rewrite <- (map_id (rows (bins_frame K P))) at 1.
    apply map_ext; intros [k cells]; cbn [fst snd].
    rewrite app_nil_r; reflexivity.
Qed.

Lemma count_labelled_rows_last :
  forall K P, labelled K P = true ->
    filter (fun r : row F => is_true_cell (nth K (skipn 5 (snd r)) CNaN))
      (map (fun x : row F => (fst x, snd x ++ [CBool false]))
           (rows (@bins_frame F K P)))
    = [].
Proof.
  intros K P HL; apply filter_none; intros r Hr.
  apply in_map_iff in Hr; destruct Hr as [r0 [<- Hr0]].
  unfold bins_frame in Hr0; cbn [rows] in Hr0.
  apply in_map_iff in Hr0; destruct Hr0 as [x [<- Hx]]; cbn [fst snd].
  destruct (labelled_row K P x HL Hx) as [Hl _].
  rewrite <- app_assoc; cbn [app skipn].
  rewrite app_nth2 by (rewrite length_map; lia).
  rewrite length_map, Hl, Nat.sub_diag; reflexivity.
Qed.

Lemma bin_count_residual :
  forall K U P, labelled K P = true ->
    (List.length P < List.length U)%nat ->
    bin_count (completed K U P) K = List.length (residual_rows K U P).
Proof.
  intros K U P HL Hlt.
  rewrite (bin_count_skip _ K (completed_valid K U P HL)).
  apply Nat.ltb_lt in Hlt; unfold completed; rewrite Hlt; cbn [rows].
  rewrite filter_app, length_app.
  etransitivity;
    [apply f_equal2;
     [apply f_equal; exact (count_labelled_rows_last K P HL)
     | apply count_residual_rows; lia]|].
  rewrite Nat.eqb_refl; reflexivity.
Qed.

(** X17. The sizes of the completed partition: after
    [polyloc_partitions], each of the [K] bins of the partitioner has
    the number of posterior variants labelled with it, neither more nor
    less, and the residual bin, when there is one, has one member per
    synthesized row. *)
Theorem polyloc_partitions_bin_sizes :
  forall bim K P prefix fs,
    labelled K P = true ->
    incl (posterior_keys P) (universe_keys bim) ->
    exists df fs',
      polyloc_partitions save_bins_to_disk bim K P prefix fs = (Ok df, fs') /\
      (forall i, (i < K)%nat ->
         bin_count df i
         = List.length (filter (fun x => nth i (snp_bins x) false) P)) /\
      ((List.length P < List.length (universe bim))%nat ->
       bin_count df K = List.length (residual_rows K (universe bim) P)).
Proof.
  intros bim K P prefix fs HL Hin.
  eexists; eexists; split; [apply polyloc_partitions_run; assumption|].
  split.
  - intros i Hi; apply bin_count_existing; assumption.
  - intros Hlt; apply bin_count_residual; assumption.
Qed.

Lemma NoDup_map_filter :
  forall (A B : Type) (f : A -> B) (p : A -> bool) (l : list A),
    NoDup (map f l) -> NoDup (map f (filter p l)).
Proof.
  intros A B f p l; induction l as [|x l IH]; intros H; [constructor|].
  simpl in H; inversion H as [|? ? Hx Hl]; subst; simpl.
  destruct (p x); [|exact (IH Hl)].
  simpl; constructor; [|exact (IH Hl)].
  intros Hin; apply Hx.
  apply in_map_iff in Hin; destruct Hin as [y [E Hy]].
  apply filter_In in Hy; rewrite <- E; apply in_map; exact (proj1 Hy).
Qed.

Lemma NoDup_joined :
  forall (A : Type) (l l' : list A),
    NoDup l -> NoDup l' -> (forall a, In a l -> ~ In a l') -> NoDup (l ++ l').
Proof.
  intros A l l' Hl Hl' Hd; induction Hl as [|x l Hx _ IH]; [exact Hl'|].
  simpl; constructor.
  - intros Hin; apply in_app_iff in Hin; destruct Hin as [Hin|Hin];
      [exact (Hx Hin) | exact (Hd x (or_introl eq_refl) Hin)].
  - apply IH; intros a Ha; apply Hd; right; exact Ha.
Qed.

Lemma completed_index_NoDup :
  forall K bim P,
    NoDup (posterior_keys P) -> NoDup (universe_keys bim) ->
    NoDup (index (completed K (universe bim) P)).
Proof.
  intros K bim P Hp Hu; rewrite index_completed.
  destruct (List.length P <? List.length (universe bim))%nat; [|exact Hp].
  apply NoDup_joined; [exact Hp | |].
  - rewrite (residual_rows_distinct K (universe bim) P Hu), map_map.
    cbn [fst]; unfold unlabelled; apply NoDup_map_filter; exact Hu.
  - intros k Hk Hr; apply residual_rows_keys in Hr; exact (proj2 Hr Hk).
Qed.

Lemma completed_shape0 :
  forall K bim P,
    NoDup (posterior_keys P) -> NoDup (universe_keys bim) ->
    incl (posterior_keys P) (universe_keys bim) ->
    shape0 (completed K (universe bim) P) = List.length (universe bim).
Proof.
  intros K bim P Hp Hu Hin.
  pose proof (completed_index_NoDup K bim P Hp Hu) as Hn.
  pose proof (completed_keys K bim P Hp Hin) as Hk.
  rewrite <- universe_keys_length.
  replace (shape0 (completed K (universe bim) P))
    with (List.length (index (completed K (universe bim) P)))
    by (unfold index, shape0; apply length_map).
  apply Nat.le_antisymm; apply NoDup_incl_length; try assumption;
    intros k Hi; apply Hk; exact Hi.
Qed.

(** X18. Every variant is counted once: when the keys of the posterior
    file are distinct, the keys of the genotype files are distinct, and
    every posterior key is a genotype key, the matrix
    [polyloc_partitions] leaves has one row per variant of the universe
    under distinct labels, and its bin sizes add up to the number of
    variants of the universe. *)
Theorem polyloc_partitions_counts_universe :
  forall bim K P prefix fs,
    labelled K P = true ->
    NoDup (posterior_keys P) ->
    NoDup (universe_keys bim) ->
    incl (posterior_keys P) (universe_keys bim) ->
    exists df fs',
      polyloc_partitions save_bins_to_disk bim K P prefix fs = (Ok df, fs') /\
      NoDup (index df) /\
      shape0 df = List.length (universe bim) /\
      list_sum (map (bin_count df) (seq 0 (List.length (bin_columns df))))
      = List.length (universe bim).
Proof.
  intros bim K P prefix fs HL Hp Hu Hin.
  eexists; eexists; split; [apply polyloc_partitions_run; assumption|].
  split; [apply completed_index_NoDup; assumption|].
  split; [apply completed_shape0; assumption|].
  rewrite (bin_counts_total _ (completed_valid K (universe bim) P HL)).
  apply completed_shape0; assumption.
Qed.

End PartitionSizes.

Lemma polyloc_partitions_bin_sizes_witness :
  exists df fs',
    polyloc_partitions Scenario.no_save Scenario.bim 2 Scenario.P "out" []
    = (Ok df, fs') /\
    (forall i, (i < 2)%nat ->
       bin_count df i
       = List.length (filter (fun x => nth i (snp_bins x) false) Scenario.P)) /\
    ((List.length Scenario.P < List.length (universe Scenario.bim))%nat ->
     bin_count df 2
     = List.length (residual_rows 2 (universe Scenario.bim) Scenario.P)).
Proof.
  apply (polyloc_partitions_bin_sizes Scenario.no_save Scenario.bim 2
           Scenario.P "out" []).
  - reflexivity.
  - apply inclb_incl; reflexivity.
Defined.

Lemma polyloc_partitions_counts_universe_witness :
  exists df fs',
    polyloc_partitions Scenario.no_save Scenario.bim 2 Scenario.P "out" []
    = (Ok df, fs') /\
    NoDup (index df) /\
    shape0 df = List.length (universe Scenario.bim) /\
    list_sum (map (bin_count df) (seq 0 (List.length (bin_columns df))))
    = List.length (universe Scenario.bim).
Proof.
  apply (polyloc_partitions_counts_universe Scenario.no_save Scenario.bim 2
           Scenario.P "out" []).
  - reflexivity.
  - apply nodupb_NoDup; reflexivity.
  - apply nodupb_NoDup; reflexivity.
  - apply inclb_incl; reflexivity.
Defined.

(** ** compute_polyloc: a missing coefficient *)

Lemma is_nan_spec :
  forall x : PrimFloat.float,
    PrimFloat.is_nan x = true <-> FloatOps.Prim2SF x = SpecFloat.S754_nan.
Proof.
  intros x; unfold PrimFloat.is_nan; rewrite FloatAxioms.eqb_spec.
  destruct (FloatOps.Prim2SF x) as [s|s| |s m e]; cbn.
  - split; discriminate.
  - destruct s; split; discriminate.
  - split; reflexivity.
  - unfold SpecFloat.SFeqb, SpecFloat.SFcompare.
    rewrite Z.compare_refl, Pos.compare_cont_refl.
    destruct s; cbn; split; discriminate.
Qed.

Lemma nan_mul :
  forall x y : PrimFloat.float,
    PrimFloat.is_nan x = true -> PrimFloat.is_nan (PrimFloat.mul x y) = true.
Proof.
  intros x y H; apply is_nan_spec in H; apply is_nan_spec.
  rewrite FloatAxioms.mul_spec, H.
  destruct (FloatOps.Prim2SF y); reflexivity.
Qed.

Lemma nan_div :
  forall x y : PrimFloat.float,
    PrimFloat.is_nan x = true -> PrimFloat.is_nan (PrimFloat.div x y) = true.
Proof.
  intros x y H; apply is_nan_spec in H; apply is_nan_spec.
  rewrite FloatAxioms.div_spec, H.
  destruct (FloatOps.Prim2SF y); reflexivity.
Qed.

Lemma cumsum_from_nan :
  forall (s : list PrimFloat.float) acc i,
    PrimFloat.is_nan (nth i s PrimFloat.zero) = true ->
    PrimFloat.is_nan (nth i (cumsum_from Float64 acc s) PrimFloat.zero) = true.
Proof.
  induction s as [|x s IH]; intros acc i H.
  - destruct i; discriminate H.
  - cbn [cumsum_from]; change (nisnan Float64 x) with (PrimFloat.is_nan x).
    destruct i as [|i]; cbn [nth] in H |- *.
    + rewrite H; reflexivity.
    + destruct (PrimFloat.is_nan x); cbn [nth]; apply IH; exact H.
Qed.

Lemma nth_shares :
  forall (f : PrimFloat.float -> PrimFloat.float) (l : list PrimFloat.float) i,
    (i < List.length l)%nat ->
    nth i (map f l) PrimFloat.zero = f (nth i l PrimFloat.zero).
Proof.
  intros f l i H.
  rewrite (nth_indep (map f l) PrimFloat.zero (f PrimFloat.zero))
    by (rewrite length_map; exact H).
  apply map_nth.
Qed.

Lemma nth_contributions :
  forall (taus sizes : list PrimFloat.float) i,
    (i < List.length taus)%nat -> (i < List.length sizes)%nat ->
    nth i (contributions Float64 taus sizes) PrimFloat.zero
    = PrimFloat.mul (nth i taus PrimFloat.zero) (nth i sizes PrimFloat.zero).
Proof.
  induction taus as [|t taus IH]; intros [|z sizes] i Ht Hs; simpl in *;
    try lia.
  destruct i as [|i]; [reflexivity|].
  apply IH; lia.
Qed.

(** X19. A coefficient that is not a number does not stop the run: in
    binary64 arithmetic, when the estimate of bin [i] is NaN and the
    coefficients are as many as the bins, [compute_polyloc] still
    writes its table, and the %H2 and SUM_%H2 values of bin [i] are
    NaN. *)
Theorem compute_polyloc_missing_coefficient :
  forall (hsqhat : Hsq Float64) prefix (fs : files PrimFloat.float) table i,
    read_file (prefix ++ ".binsize")%string fs = Some (binsize_csv table) ->
    List.length (taus_of Float64 hsqhat) = List.length table ->
    (i < List.length table)%nat ->
    PrimFloat.is_nan (nth i (jknife_est hsqhat) PrimFloat.zero) = true ->
    exists df h2 sum_h2,
      compute_polyloc Float64 hsqhat prefix fs =
      (Ok df, ((prefix ++ ".polyloc")%string, polyloc_csv Float64 df) :: fs) /\
      float_column Float64 df H2 = Some h2 /\
      float_column Float64 df SUM_H2 = Some sum_h2 /\
      PrimFloat.is_nan (nth i h2 PrimFloat.zero) = true /\
      PrimFloat.is_nan (nth i sum_h2 PrimFloat.zero) = true.
Proof.
  intros hsqhat prefix fs table i Hf Hl Hi Hn.
  destruct (compute_polyloc_aligned Float64 hsqhat prefix fs table Hf Hl)
    as [df [Hrun [Hh2 Hsum]]].
  exists df; eexists; eexists.
  split; [exact Hrun|]; split; [exact Hh2|]; split; [exact Hsum|].
  set (c := contributions Float64 (taus_of Float64 hsqhat)
              (sizes_of Float64 table)).
  assert (Lc : List.length c = List.length table).
  { unfold c; rewrite contributions_length;
      rewrite sizes_of_length; [reflexivity | exact Hl]. }
  assert (Hc : PrimFloat.is_nan (nth i c PrimFloat.zero) = true).
  { unfold c; rewrite nth_contributions;
      [| exact (eq_ind_r (fun n => (i < n)%nat) Hi Hl)
       | exact (eq_ind_r (fun n => (i < n)%nat) Hi
                  (sizes_of_length Float64 table))].
    apply nan_mul.
    assert (Lf : List.length (firstn (n_annot hsqhat) (jknife_est hsqhat))
                 = List.length table).
    { rewrite <- Hl; unfold taus_of; symmetry; apply length_map. }
    unfold taus_of.
    rewrite (nth_shares _ (firstn (n_annot hsqhat) (jknife_est hsqhat)) i)
      by exact (eq_ind_r (fun n => (i < n)%nat) Hi Lf).
    change (ndiv Float64) with PrimFloat.div; apply nan_div.
    rewrite <- (firstn_skipn (n_annot hsqhat) (jknife_est hsqhat)) in Hn.
    rewrite app_nth1 in Hn by exact (eq_ind_r (fun n => (i < n)%nat) Hi Lf).
    exact Hn. }
  assert (Hh : PrimFloat.is_nan
                 (nth i (map (fun x => ndiv Float64 x (series_sum Float64 c)) c)
                      PrimFloat.zero) = true).
  { rewrite (nth_shares _ c i) by exact (eq_ind_r (fun n => (i < n)%nat) Hi Lc).
    change (ndiv Float64) with PrimFloat.div; apply nan_div; exact Hc. }
  split; [exact Hh|].
  unfold cumsum; apply cumsum_from_nan; exact Hh.
Qed.

Lemma compute_polyloc_missing_coefficient_witness :
  exists df h2 sum_h2,
    compute_polyloc Float64 Missing.hsq_nan "out"
      (Scenario.persisted PrimFloat.float Scenario.sizes_negative)
    = (Ok df, ("out.polyloc", polyloc_csv Float64 df)
              :: Scenario.persisted PrimFloat.float Scenario.sizes_negative) /\
    float_column Float64 df H2 = Some h2 /\
    float_column Float64 df SUM_H2 = Some sum_h2 /\
    PrimFloat.is_nan (nth 0 h2 PrimFloat.zero) = true /\
    PrimFloat.is_nan (nth 0 sum_h2 PrimFloat.zero) = true.
Proof.
  apply (compute_polyloc_missing_coefficient Missing.hsq_nan "out"
           (Scenario.persisted PrimFloat.float Scenario.sizes_negative)
           Scenario.sizes_negative 0).
  - reflexivity.
  - reflexivity.
  - cbn; lia.
  - reflexivity.
Defined.
